(** * WeightMonitor: a shallow embedding of [weight.py]

    The development follows the layout of the script: the string and
    float primitives the Line Decoder relies on, the [Scale] channel
    controller ([connect], [read_weight], [get_validated_weight]), the
    upload sink, the slot scheduler and the main polling loop.

    Python floats are IEEE binary64 values; they are represented by the
    primitive floats of the kernel, so comparisons and subtractions
    behave as in the script, rounding included.  Text is represented by
    [string]; characters are 8-bit code points. *)

From Stdlib Require Import ZArith Lia List Bool Ascii String.
From Stdlib Require Import Floats.PrimFloat Floats.SpecFloat Floats.FloatOps.
From stdpp Require Import base option list gmap strings pretty.

Set Warnings "-inexact-float".

Open Scope string_scope.
Open Scope list_scope.

(* ================================================================== *)
(** * Python string primitives *)
(* ================================================================== *)

Module PyStr.

(** [str.isspace] on one character, for code points below 256. *)
Definition is_space (c : ascii) : bool :=
  let n := nat_of_ascii c in
  ((9 <=? n)%nat && (n <=? 13)%nat)
  || ((28 <=? n)%nat && (n <=? 32)%nat)
  || (n =? 133)%nat || (n =? 160)%nat.

(** Stripping the characters satisfying [sp] from both ends. *)
Fixpoint lstrip_by (sp : ascii -> bool) (s : string) : string :=
  match s with
  | String c s' => if sp c then lstrip_by sp s' else s
  | EmptyString => EmptyString
  end.

Fixpoint rstrip_by (sp : ascii -> bool) (s : string) : string :=
  match s with
  | String c s' =>
      match rstrip_by sp s' with
      | EmptyString => if sp c then EmptyString else String c EmptyString
      | r => String c r
      end
  | EmptyString => EmptyString
  end.

(** [s.strip()] *)
Definition strip (s : string) : string :=
  rstrip_by is_space (lstrip_by is_space s).

(** [s.split(sep)] for a one-character separator: never empty. *)
Fixpoint split (sep : ascii) (s : string) : list string :=
  match s with
  | EmptyString => [EmptyString]
  | String c s' =>
      if Ascii.eqb c sep then EmptyString :: split sep s'
      else match split sep s' with
           | h :: t => String c h :: t
           | [] => [String c EmptyString]
           end
  end.

(** [l[-1]] on the result of [split] (which has at least one item). *)
Definition last_item (l : list string) : string := List.last l EmptyString.

(** [s] without its prefix [p], when [p] is a prefix of [s]. *)
Fixpoint drop_prefix (p s : string) : option string :=
  match p, s with
  | EmptyString, _ => Some s
  | String a p', String b s' => if Ascii.eqb a b then drop_prefix p' s' else None
  | String _ _, EmptyString => None
  end.

(** [old in s] *)
Fixpoint contains (old s : string) : bool :=
  match drop_prefix old s with
  | Some _ => true
  | None => match s with
            | String _ s' => contains old s'
            | EmptyString => false
            end
  end.

(** [s.replace(old, "")] for a non-empty [old]: occurrences are removed
    left to right, without overlap.  The recursion is on a bound on
    the remaining length. *)
Fixpoint remove_fuel (fuel : nat) (old s : string) : string :=
  match fuel with
  | O => s
  | S fuel' =>
      match s with
      | EmptyString => EmptyString
      | String c s' =>
          match drop_prefix old s with
          | Some rest => remove_fuel fuel' old rest
          | None => String c (remove_fuel fuel' old s')
          end
      end
  end.

Definition remove (old s : string) : string :=
  match old with
  | EmptyString => s
  | _ => remove_fuel (String.length s) old s
  end.

End PyStr.

(* ================================================================== *)
(** * Python's [float(str)] *)
(* ================================================================== *)

(** The builtin is not part of the script; it is modelled from the
    grammar of the language reference

      floatvalue ::= [sign] (floatnumber | "inf" | "infinity" | "nan")
      floatnumber ::= number [exponent]
      number ::= [digitpart] "." digitpart | digitpart ["."]
      digitpart ::= digit (["_"] digit)*
      exponent ::= ("e" | "E") [sign] digitpart

    with surrounding whitespace ignored, and the decimal value rounded
    to the nearest binary64 number (ties to even). *)

Module PyFloat.

Local Open Scope Z_scope.

(** The blanks [float] skips at both ends of its argument: the ASCII
    ones, and the two Latin-1 spaces. *)
Definition is_blank (c : ascii) : bool :=
  let n := nat_of_ascii c in
  ((9 <=? n)%nat && (n <=? 13)%nat)
  || (n =? 32)%nat || (n =? 133)%nat || (n =? 160)%nat.

Definition is_digit (c : ascii) : bool :=
  let n := nat_of_ascii c in (48 <=? n)%nat && (n <=? 57)%nat.

Definition digit_val (c : ascii) : Z := Z.of_nat (nat_of_ascii c) - 48.

(** ASCII lower-casing, for the case-insensitive words. *)
Definition lower (c : ascii) : ascii :=
  let n := nat_of_ascii c in
  if (65 <=? n)%nat && (n <=? 90)%nat then ascii_of_nat (n + 32) else c.

Fixpoint lower_str (s : string) : string :=
  match s with
  | String c s' => String (lower c) (lower_str s')
  | EmptyString => EmptyString
  end.

(** The rest of a digitpart after its first digit: an accumulator for
    the value, a count of the digits read, and the unread text. *)
Fixpoint digits_go (acc : Z) (cnt : Z) (s : string) : Z * Z * string :=
  match s with
  | String c s' =>
      if is_digit c then digits_go (10 * acc + digit_val c) (cnt + 1) s'
      else if Ascii.eqb c "_" then
        match s' with
        | String d s'' =>
            if is_digit d then digits_go (10 * acc + digit_val d) (cnt + 1) s''
            else (acc, cnt, s)
        | EmptyString => (acc, cnt, s)
        end
      else (acc, cnt, s)
  | EmptyString => (acc, cnt, s)
  end.

(** A digitpart continuing the accumulator [acc]; [None] when the text
    does not start with a digit. *)
Definition digitpart (acc : Z) (s : string) : option (Z * Z * string) :=
  match s with
  | String c _ => if is_digit c then Some (digits_go acc 0 s) else None
  | EmptyString => None
  end.

(** A decimal literal: mantissa [dm] and power of ten [de]. *)
Record decimal := { dm : Z; de : Z }.

(** [number]: the mantissa collects the integer and the fraction
    digits; the exponent is minus the number of fraction digits. *)
Definition number (s : string) : option (decimal * string) :=
  match digitpart 0 s with
  | Some (m, _, rest) =>
      match rest with
      | String "." rest' =>
          match digitpart m rest' with
          | Some (m', k, rest'') => Some ({| dm := m'; de := - k |}, rest'')
          | None => Some ({| dm := m; de := 0 |}, rest')
          end
      | _ => Some ({| dm := m; de := 0 |}, rest)
      end
  | None =>
      match s with
      | String "." rest' =>
          match digitpart 0 rest' with
          | Some (m', k, rest'') => Some ({| dm := m'; de := - k |}, rest'')
          | None => None
          end
      | _ => None
      end
  end.

(** An optional sign: [true] for minus. *)
Definition sign (s : string) : bool * string :=
  match s with
  | String "+" s' => (false, s')
  | String "-" s' => (true, s')
  | _ => (false, s)
  end.

(** [exponent], when the text starts with one; the whole rest of the
    literal has to be consumed. *)
Definition exponent (s : string) : option Z :=
  match s with
  | EmptyString => Some 0
  | String c s' =>
      if Ascii.eqb (lower c) "e" then
        let '(neg, s'') := sign s' in
        match digitpart 0 s'' with
        | Some (e, _, EmptyString) => Some (if neg then - e else e)
        | _ => None
        end
      else None
  end.

(** The binary64 number nearest to [m * 10^e] for [m >= 0], with the
    sign [neg].  A negative power of ten is divided out with enough
    extra bits, the remainder kept as a sticky bit. *)
Definition round_decimal (neg : bool) (m e : Z) : float :=
  let sgn (z : Z) := if neg then (- z)%Z else z in
  if (0 <=? e)%Z then
    SF2Prim (binary_normalize prec emax (sgn (m * 10 ^ e)) 0 neg)
  else
    let d := (10 ^ (- e))%Z in
    let k := (Z.log2 d + 56)%Z in
    let q := ((m * 2 ^ k) / d)%Z in
    let r := ((m * 2 ^ k) mod d)%Z in
    let q' := (2 * q + (if (r =? 0)%Z then 0 else 1))%Z in
    SF2Prim (binary_normalize prec emax (sgn q') (- (k + 1)) neg).

(** [float(s)]: [None] stands for [ValueError]. *)
Definition float_of_str (s : string) : option float :=
  let '(neg, body) :=
    sign (PyStr.rstrip_by is_blank (PyStr.lstrip_by is_blank s)) in
  let word := lower_str body in
  if (String.eqb word "inf" || String.eqb word "infinity")%bool then
    Some (if neg then neg_infinity else infinity)
  else if String.eqb word "nan" then Some nan
  else
    match number body with
    | Some (d, rest) =>
        match exponent rest with
        | Some e => Some (round_decimal neg (dm d) (de d + e))
        | None => None
        end
    | None => None
    end.

End PyFloat.

(* ================================================================== *)
(** * Configuration *)
(* ================================================================== *)

Definition SCALE_PORTS : list string := ["/dev/ttyUSB0"].
Definition MAX_RECONNECT_ATTEMPTS : nat := 5.
(** Delays are kept in microseconds. *)
Definition RECONNECT_DELAY : Z := 5000000.
Definition READ_DELAY : Z := 200000.
Definition READ_ATTEMPTS : nat := 5.
Definition WEIGHT_VALIDATION_THRESHOLD : float := 0.5%float.
Definition MAX_VALIDATION_RETRIES : nat := 10.

(* ================================================================== *)
(** * The environment of the script *)
(* ================================================================== *)

(** What the serial device does when one attempt of [read_weight]
    reaches it: [reset_input_buffer] raises, [readline] raises, or
    [readline] delivers a line (already decoded, errors ignored). *)
Inductive DeviceReply :=
| ResetRaises
| ReadRaises
| Line (raw : string).

(** A [serial.Serial] object: its identity and its [is_open] flag. *)
Record Serial := { handle : nat; is_open : bool }.

(** Calls that leave the process, in the order they are made. *)
Inductive Event :=
| EvExists (port : string) (found : bool)
| EvOpen (port : string) (opened : option nat)
| EvReset (h : nat)
| EvReadline (h : nat)
| EvSleep (us : Z).

(** The environment answers each kind of call from a queue, in call
    order; an exhausted queue answers with the failure of that call (a
    missing path, a port that does not open, a read that times out
    with no data). *)
Record World := {
  path_exists_q : list bool;
  serial_open_q : list bool;
  device_q : list DeviceReply;
  next_handle : nat;
  trace : list Event
}.

Definition pop {A} (d : A) (q : list A) : A * list A :=
  match q with
  | x :: q' => (x, q')
  | [] => (d, [])
  end.

Definition emit (e : Event) (w : World) : World :=
  {| path_exists_q := path_exists_q w; serial_open_q := serial_open_q w;
     device_q := device_q w; next_handle := next_handle w;
     trace := trace w ++ [e] |}.

(** [time.sleep(us)] *)
Definition sleep (us : Z) (w : World) : World := emit (EvSleep us) w.

(** [os.path.exists(port)] *)
Definition os_path_exists (port : string) (w : World) : bool * World :=
  let '(found, q) := pop false (path_exists_q w) in
  (found,
   emit (EvExists port found)
     {| path_exists_q := q; serial_open_q := serial_open_q w;
        device_q := device_q w; next_handle := next_handle w;
        trace := trace w |}).

(** [serial.Serial(port, 9600, timeout=1)]: a fresh open handle, or
    [None] when the constructor raises. *)
Definition serial_Serial (port : string) (w : World) : option Serial * World :=
  let '(ok, q) := pop false (serial_open_q w) in
  if ok then
    (Some {| handle := next_handle w; is_open := true |},
     emit (EvOpen port (Some (next_handle w)))
       {| path_exists_q := path_exists_q w; serial_open_q := q;
          device_q := device_q w; next_handle := S (next_handle w);
          trace := trace w |})
  else
    (None,
     emit (EvOpen port None)
       {| path_exists_q := path_exists_q w; serial_open_q := q;
          device_q := device_q w; next_handle := next_handle w;
          trace := trace w |}).

(** [reset_input_buffer()] followed, when it did not raise, by
    [readline()] on the handle [h]. *)
Definition device_read (h : nat) (w : World) : DeviceReply * World :=
  let '(r, q) := pop (Line "") (device_q w) in
  let w' := {| path_exists_q := path_exists_q w; serial_open_q := serial_open_q w;
               device_q := q; next_handle := next_handle w; trace := trace w |} in
  match r with
  | ResetRaises => (r, emit (EvReset h) w')
  | _ => (r, emit (EvReadline h) (emit (EvReset h) w'))
  end.

(* ================================================================== *)
(** * The Line Decoder *)
(* ================================================================== *)

(** [line.split(",")[-1].replace("kg", "").replace("+", "").strip()] *)
Definition weight_str (line : string) : string :=
  PyStr.strip
    (PyStr.remove "+" (PyStr.remove "kg" (PyStr.last_item (PyStr.split "," line)))).

(** How the decoding statements of [read_weight] end on a line: with a
    [return] of the weight, with the [ValueError] of [float], or by
    falling through the [if] when the line has no ["kg"]. *)
Inductive Decoded :=
| Weight (v : float)
| ValueError
| NoUnit.

Definition decode_line (line : string) : Decoded :=
  if PyStr.contains "kg" line then
    match PyFloat.float_of_str (weight_str line) with
    | Some v => Weight v
    | None => ValueError
    end
  else NoUnit.


(* ================================================================== *)
(** * The channel controller: class [Scale] *)
(* ================================================================== *)

Record Scale := {
  port : string;
  serial : option Serial;
  failed : bool;
  last_valid_weight : option float
}.

Definition set_serial (s : Scale) (h : option Serial) (f : bool) : Scale :=
  {| port := port s; serial := h; failed := f;
     last_valid_weight := last_valid_weight s |}.

Definition set_failed (s : Scale) (f : bool) : Scale :=
  {| port := port s; serial := serial s; failed := f;
     last_valid_weight := last_valid_weight s |}.

Definition set_last_valid_weight (s : Scale) (v : float) : Scale :=
  {| port := port s; serial := serial s; failed := failed s;
     last_valid_weight := Some v |}.

(** ** [connect] *)

(** The [for attempt in range(1, MAX_RECONNECT_ATTEMPTS + 1)] loop, and
    the two assignments after it. *)
Fixpoint connect_loop (attempts : nat) (s : Scale) (w : World) : Scale * World :=
  match attempts with
  | O => (set_serial s None true, w)
  | S n =>
      let '(found, w1) := os_path_exists (port s) w in
      if found then
        match serial_Serial (port s) w1 with
        | (Some h, w2) => (set_serial s (Some h) false, w2)
        | (None, w2) => connect_loop n s (sleep RECONNECT_DELAY w2)
        end
      else connect_loop n s (sleep RECONNECT_DELAY w1)
  end.

Definition connect (s : Scale) (w : World) : Scale * World :=
  connect_loop MAX_RECONNECT_ATTEMPTS s w.

(** [Scale(port)] *)
Definition Scale_init (p : string) (w : World) : Scale * World :=
  connect {| port := p; serial := None; failed := false;
             last_valid_weight := None |} w.

(** ** [read_weight] *)

(** How the [try] block of one attempt ends. *)
Inductive Outcome :=
| Return (v : float)   (* [return float(weight_str)] *)
| Raise                (* an exception reaches the [except] clause *)
| Continue             (* [continue]: no connection could be made *)
| Next.                (* the block ends: the line carries no weight *)

Definition needs_connect (s : Scale) : bool :=
  match serial s with
  | None => true
  | Some h => negb (is_open h)
  end.

Definition try_block (s : Scale) (w : World) : Outcome * Scale * World :=
  let '(s1, w1) := if needs_connect s then connect s w else (s, w) in
  match serial s1 with
  | None => (Continue, s1, w1)
  | Some h =>
      match device_read (handle h) w1 with
      | (Line raw, w2) =>
          match decode_line (PyStr.strip raw) with
          | Weight v => (Return v, s1, w2)
          | ValueError => (Raise, s1, w2)
          | NoUnit => (Next, s1, w2)
          end
      | (_, w2) => (Raise, s1, w2)
      end
  end.

Fixpoint read_weight_loop (attempts : nat) (s : Scale) (w : World)
  : option float * Scale * World :=
  match attempts with
  | O => (None, s, w)
  | S n =>
      match try_block s w with
      | (Return v, s1, w1) => (Some v, s1, w1)
      | (Raise, s1, w1) =>
          let '(s2, w2) := connect s1 w1 in
          read_weight_loop n s2 (sleep READ_DELAY w2)
      | (Continue, s1, w1) => read_weight_loop n s1 w1
      | (Next, s1, w1) => read_weight_loop n s1 (sleep READ_DELAY w1)
      end
  end.

Definition read_weight (s : Scale) (w : World) : option float * Scale * World :=
  read_weight_loop READ_ATTEMPTS s w.

(** ** [get_validated_weight] *)

(** [abs(weight - self.last_valid_weight) <= WEIGHT_VALIDATION_THRESHOLD] *)
Definition within_threshold (weight last : float) : bool :=
  PrimFloat.leb (PrimFloat.abs (PrimFloat.sub weight last))
    WEIGHT_VALIDATION_THRESHOLD.

(** The [for attempt in range(MAX_VALIDATION_RETRIES)] loop and the
    fallback after it.  [last] is the value of [self.last_valid_weight]
    the comparisons read: the field is assigned nowhere in the loop
    before the [return] that leaves it. *)
Fixpoint validation_loop (attempts : nat) (last : float) (s : Scale) (w : World)
  : option float * Scale * World :=
  match attempts with
  | O => (last_valid_weight s, s, w)
  | S n =>
      match read_weight s w with
      | (None, s1, w1) => validation_loop n last s1 w1
      | (Some weight, s1, w1) =>
          if within_threshold weight last
          then (Some weight, set_last_valid_weight s1 weight, w1)
          else validation_loop n last s1 w1
      end
  end.

Definition get_validated_weight (s : Scale) (w : World)
  : option float * Scale * World :=
  match last_valid_weight s with
  | None =>
      match read_weight s w with
      | (Some weight, s1, w1) => (Some weight, set_last_valid_weight s1 weight, w1)
      | (None, s1, w1) => (None, s1, w1)
      end
  | Some last => validation_loop MAX_VALIDATION_RETRIES last s w
  end.

(* ================================================================== *)
(** * Wall-clock time *)
(* ================================================================== *)

(** A naive [datetime]: the date as its proleptic Gregorian ordinal
    ([date.toordinal()]), then the time-of-day fields.  A [timedelta]
    is its total number of microseconds. *)

Module DateTime.

Local Open Scope Z_scope.

Record datetime := {
  ordinal : Z;
  hour : Z;
  minute : Z;
  second : Z;
  microsecond : Z
}.

Definition timedelta := Z.

(** [date.max.toordinal()] *)
Definition MAXORDINAL : Z := 3652059.

Definition valid (d : datetime) : Prop :=
  1 <= ordinal d <= MAXORDINAL /\ 0 <= hour d < 24 /\ 0 <= minute d < 60
  /\ 0 <= second d < 60 /\ 0 <= microsecond d < 1000000.

(** [timedelta(minutes=k)] *)
Definition minutes (k : Z) : timedelta := k * 60000000.

(** Microseconds since the start of ordinal day 0. *)
Definition to_us (d : datetime) : Z :=
  (((ordinal d * 24 + hour d) * 60 + minute d) * 60 + second d) * 1000000
  + microsecond d.

(** The normalisation by successive [divmod]s. *)
Definition of_us (z : Z) : datetime :=
  let s := z / 1000000 in
  let m := s / 60 in
  let h := m / 60 in
  {| ordinal := h / 24; hour := h mod 24; minute := m mod 60;
     second := s mod 60; microsecond := z mod 1000000 |}.

(** [d + td]; [None] is the [OverflowError] of a date out of range. *)
Definition add (d : datetime) (td : timedelta) : option datetime :=
  let r := of_us (to_us d + td) in
  if (1 <=? ordinal r) && (ordinal r <=? MAXORDINAL) then Some r else None.

(** [d - td] *)
Definition sub (d : datetime) (td : timedelta) : option datetime := add d (- td).

(** [a - b], in microseconds. *)
Definition diff (a b : datetime) : timedelta := to_us a - to_us b.

(** [d.replace(second=0, microsecond=0)] *)
Definition truncate_to_minute (d : datetime) : datetime :=
  {| ordinal := ordinal d; hour := hour d; minute := minute d;
     second := 0; microsecond := 0 |}.

(** [a < b]: field by field, most significant first. *)
Definition ltb (a b : datetime) : bool :=
  match ordinal a ?= ordinal b with
  | Lt => true | Gt => false
  | Eq =>
    match hour a ?= hour b with
    | Lt => true | Gt => false
    | Eq =>
      match minute a ?= minute b with
      | Lt => true | Gt => false
      | Eq =>
        match second a ?= second b with
        | Lt => true | Gt => false
        | Eq => microsecond a <? microsecond b
        end
      end
    end
  end.

Definition leb (a b : datetime) : bool := negb (ltb b a).

End DateTime.

Import DateTime.

(** ** [get_next_slot] *)

(** [now] is the answer of [datetime.now()]. *)
Definition get_next_slot (now : datetime) : option datetime :=
  match DateTime.add now (minutes 10) with
  | Some t => DateTime.sub (truncate_to_minute t) (minutes (minute now mod 10))
  | None => None
  end.

(** A time-of-day on a given day. *)
Definition at_time (day h m s : Z) : datetime :=
  {| ordinal := day; hour := h; minute := m; second := s; microsecond := 0 |}.

(* ================================================================== *)
(** * The sinks *)
(* ================================================================== *)

(** Values handed to the sinks.  [JTime t] stands for the text
    [t.isoformat()]; a weight slot holding [None] is [JNull]. *)
Inductive Json :=
| JStr (s : string)
| JTime (t : datetime)
| JNum (v : float)
| JNull.

Definition of_weight (w : option float) : Json :=
  match w with
  | Some v => JNum v
  | None => JNull
  end.

(** ** Firebase *)

(** [db.reference(path)] *)
Record Reference := { path : string }.

Definition db_reference (p : string) : Reference := {| path := p |}.

(** The remote store: under each node, the children pushed so far,
    oldest first; and the outcomes of the coming [push] calls ([false]:
    the call raises and stores nothing). *)
Record Firebase := {
  push_q : list bool;
  db : gmap string (list (gmap string Json))
}.

Definition children (fb : Firebase) (p : string) : list (gmap string Json) :=
  default [] (db fb !! p).

(** [ref.push(data)]: [true] when it returns. *)
Definition push (r : Reference) (data : gmap string Json) (fb : Firebase)
  : bool * Firebase :=
  let '(ok, q) := pop false (push_q fb) in
  if ok then
    (true, {| push_q := q;
              db := <[path r := children fb (path r) ++ [data]]> (db fb) |})
  else (false, {| push_q := q; db := db fb |}).

(** [setup_firebase_with_retry]: [outcomes] tells, attempt by attempt,
    whether the initialisation goes through; [None] is the exception
    re-raised after the last attempt. *)
Fixpoint setup_firebase_loop (attempts : nat) (outcomes : list bool)
  : option (Reference * Reference) :=
  match attempts with
  | O => None
  | S n =>
      let '(ok, rest) := pop false outcomes in
      if ok then
        let ref_304 := db_reference "weights/12644" in
        let ref_303 := db_reference "weights/12644" in
        Some (ref_304, ref_303)
      else setup_firebase_loop n rest
  end.

Definition setup_firebase_with_retry (outcomes : list bool)
  : option (Reference * Reference) :=
  setup_firebase_loop 3 outcomes.

(** [enumerate(l, start)] *)
Fixpoint enumerate {A} (start : nat) (l : list A) : list (nat * A) :=
  match l with
  | [] => []
  | x :: l' => (start, x) :: enumerate (S start) l'
  end.

(** The dictionary [data_304]: the timestamp, then [weight1] ... for
    [weights[:3]]. *)
Definition data_304 (t : datetime) (weights : list (option float))
  : gmap string Json :=
  foldl (fun d iw => <["weight" +:+ pretty (fst iw) := of_weight (snd iw)]> d)
        {["timestamp" := JTime t]}
        (enumerate 1 (take 3 weights)).

(** The dictionary [data_303] around the value of [weights[2]]. *)
Definition data_303 (t : datetime) (w : option float) : gmap string Json :=
  <["weight1" := of_weight w]> {["timestamp" := JTime t]}.

(** The [try] block of one upload attempt: [true] when it reaches the
    [return]; [false] when a [push] (or the subscript) raises. *)
Definition upload_attempt (ref_304 ref_303 : Reference) (t : datetime)
    (weights : list (option float)) (fb : Firebase) : bool * Firebase :=
  match push ref_304 (data_304 t weights) fb with
  | (true, fb1) =>
      if (3 <? length weights)%nat then
        match weights !! 2%nat with
        | Some w => push ref_303 (data_303 t w) fb1
        | None => (false, fb1)
        end
      else (true, fb1)
  | (false, fb1) => (false, fb1)
  end.

Fixpoint upload_loop (attempts : nat) (ref_304 ref_303 : Reference)
    (t : datetime) (weights : list (option float)) (fb : Firebase) : Firebase :=
  match attempts with
  | O => fb
  | S n =>
      match upload_attempt ref_304 ref_303 t weights fb with
      | (true, fb1) => fb1
      | (false, fb1) => upload_loop n ref_304 ref_303 t weights fb1
      end
  end.

Definition upload_to_firebase (ref_304 ref_303 : Reference) (t : datetime)
    (weights : list (option float)) (fb : Firebase) : Firebase :=
  upload_loop 3 ref_304 ref_303 t weights fb.

(** ** The CSV file *)

(** The file is absent or holds rows of cells; [csv_open_q] tells
    whether the coming [open] calls succeed. *)
Record Csv := {
  csv_open_q : list bool;
  csv_rows : option (list (list Json))
}.

Definition csv_header (n : nat) : list Json :=
  JStr "timestamp" :: map (fun i => JStr ("weight" +:+ pretty (S i))) (seq 0 n).

Definition save_to_csv (t : datetime) (weights : list (option float)) (c : Csv) : Csv :=
  let '(ok, q) := pop false (csv_open_q c) in
  if ok then
    let row := JTime t :: map of_weight weights in
    match csv_rows c with
    | Some rows => {| csv_open_q := q; csv_rows := Some (rows ++ [row]) |}
    | None => {| csv_open_q := q;
                 csv_rows := Some [csv_header (length weights); row] |}
    end
  else {| csv_open_q := q; csv_rows := csv_rows c |}.

(* ================================================================== *)
(** * The main loop *)
(* ================================================================== *)

(** The record of one tick, as handed to both sinks. *)
Record Record_ := { timestamp : datetime; weights : list (option float) }.

(** The state of [main] between two ticks.  [clock_q] holds the coming
    answers of [datetime.now()].  [reboot_q] tells, for the coming
    [sudo reboot] calls, whether the call merely returns ([true], the
    loop goes on) or the process is gone before the next tick
    ([false], also when the queue is exhausted). *)
Record Main := {
  scales : list Scale;
  last_weights : list (option float);
  world : World;
  firebase : Firebase;
  csv : Csv;
  clock_q : list datetime;
  reboot_q : list bool;
  reboots : nat;
  running : bool
}.

(** The body of [for i, scale in enumerate(scales)] for one channel.
    [None] is an [IndexError] on [last_weights]. *)
Definition poll_scale (i : nat) (scale : Scale) (lw ws : list (option float))
    (w : World) : option (Scale * list (option float) * list (option float) * World) :=
  match get_validated_weight scale w with
  | (Some v, scale1, w1) =>
      if (i <? length lw)%nat
      then Some (scale1, <[i := Some v]> lw, ws ++ [Some v], w1)
      else None
  | (None, scale1, w1) =>
      match lw !! i with
      | Some last => Some (set_failed scale1 true, lw, ws ++ [last], w1)
      | None => None
      end
  end.

(** The whole [for] loop, from channel [i] on; the result lists the
    channels as the loop leaves them. *)
Fixpoint poll (i : nat) (todo : list Scale) (lw ws : list (option float))
    (w : World) : option (list Scale * list (option float) * list (option float) * World) :=
  match todo with
  | [] => Some ([], lw, ws, w)
  | scale :: todo' =>
      match poll_scale i scale lw ws w with
      | Some (scale1, lw1, ws1, w1) =>
          match poll (S i) todo' lw1 ws1 w1 with
          | Some (done, lw2, ws2, w2) => Some (scale1 :: done, lw2, ws2, w2)
          | None => None
          end
      | None => None
      end
  end.

(** [datetime.now()]: an exhausted clock answers with the first
    instant of day 1. *)
Definition epoch : datetime := at_time 1 0 0 0.

(** One pass through the body of [while True].  [None]: no tick, the
    process is gone or an exception ends [main] before the record is
    built. *)
Definition tick (ref_304 ref_303 : Reference) (st : Main) : option (Main * Record_) :=
  if running st then
    let '(now, q1) := pop epoch (clock_q st) in
    let '(now', q2) := pop epoch q1 in
    match get_next_slot now' with
    | None => None
    | Some next_time =>
        let wait := DateTime.diff next_time now in
        let w0 := sleep (Z.max 0 wait) (world st) in
        let '(now'', q3) := pop epoch q2 in
        let t := truncate_to_minute now'' in
        match poll 0 (scales st) (last_weights st) [] w0 with
        | None => None
        | Some (scales1, lw1, ws, w1) =>
            let csv1 := save_to_csv t ws (csv st) in
            let fb1 := upload_to_firebase ref_304 ref_303 t ws (firebase st) in
            let rec := {| timestamp := t; weights := ws |} in
            if existsb failed scales1 then
              let '(returns, rq) := pop false (reboot_q st) in
              Some ({| scales := scales1; last_weights := lw1; world := w1;
                       firebase := fb1; csv := csv1; clock_q := q3;
                       reboot_q := rq; reboots := S (reboots st);
                       running := returns |}, rec)
            else
              Some ({| scales := scales1; last_weights := lw1; world := w1;
                       firebase := fb1; csv := csv1; clock_q := q3;
                       reboot_q := reboot_q st; reboots := reboots st;
                       running := true |}, rec)
        end
    end
  else None.

(** [scales = [Scale(port) for port in SCALE_PORTS]] *)
Fixpoint make_scales (ports : list string) (w : World) : list Scale * World :=
  match ports with
  | [] => ([], w)
  | p :: ports' =>
      let '(s, w1) := Scale_init p w in
      let '(ss, w2) := make_scales ports' w1 in
      (s :: ss, w2)
  end.

(** The state of [main] when it enters the loop. *)
Definition main_init (ports : list string) (w : World) (fb : Firebase) (c : Csv)
    (clock : list datetime) (rq : list bool) : Main :=
  let '(ss, w1) := make_scales ports w in
  {| scales := ss; last_weights := replicate (length ss) None; world := w1;
     firebase := fb; csv := c; clock_q := clock; reboot_q := rq;
     reboots := 0; running := true |}.

(** The ticks of a run: [ticks st recs st'] when the loop, started in
    [st], has gone through [length recs] ticks, producing the records
    [recs] (oldest first) and reaching [st']. *)
Inductive ticks (ref_304 ref_303 : Reference) (st : Main)
  : list Record_ -> Main -> Prop :=
| ticks_start : ticks ref_304 ref_303 st [] st
| ticks_next recs st1 st2 r :
    ticks ref_304 ref_303 st recs st1 ->
    tick ref_304 ref_303 st1 = Some (st2, r) ->
    ticks ref_304 ref_303 st (recs ++ [r]) st2.

(** The first [n] ticks, computed: the state reached and the records,
    or [None] when the loop ends before the [n]-th record. *)
Fixpoint run (ref_304 ref_303 : Reference) (n : nat) (st : Main)
  : option (Main * list Record_) :=
  match n with
  | O => Some (st, [])
  | S n' =>
      match run ref_304 ref_303 n' st with
      | Some (st1, recs) =>
          match tick ref_304 ref_303 st1 with
          | Some (st2, r) => Some (st2, recs ++ [r])
          | None => None
          end
      | None => None
      end
  end.

(** The state [run] reaches ([st] itself when the loop ends early). *)
Definition state_after (ref_304 ref_303 : Reference) (n : nat) (st : Main) : Main :=
  match run ref_304 ref_303 n st with
  | Some (st', _) => st'
  | None => st
  end.

(** A slot boundary: a whole minute that is a multiple of ten. *)
Definition on_slot (d : datetime) : Prop :=
  (second d = 0 /\ microsecond d = 0 /\ minute d mod 10 = 0)%Z.

(* ================================================================== *)
(** * Notions used to state the properties *)
(* ================================================================== *)

(** The numeric field as the specification words it: the text of the
    last comma-delimited field, without the unit suffix, without one
    leading plus sign, trimmed. *)
Module Spec.

Fixpoint drop_suffix_kg (s : string) : string :=
  match s with
  | String "k" (String "g" EmptyString) => EmptyString
  | String c s' => String c (drop_suffix_kg s')
  | EmptyString => EmptyString
  end.

Definition drop_leading_plus (s : string) : string :=
  match s with
  | String "+" s' => s'
  | _ => s
  end.

Definition numeric_field (line : string) : string :=
  PyStr.strip
    (drop_leading_plus (drop_suffix_kg (PyStr.last_item (PyStr.split "," line)))).

End Spec.

(** A reply of the device from which an attempt of [read_weight]
    returns a weight. *)
Definition is_reading (r : DeviceReply) : bool :=
  match r with
  | Line raw =>
      match decode_line (PyStr.strip raw) with
      | Weight _ => true
      | _ => false
      end
  | _ => false
  end.

(** The first [n] raw reads made one after the other from [(s, w)]:
    each with its result and the state it leaves. *)
Fixpoint raw_reads (n : nat) (s : Scale) (w : World)
  : list (option float * Scale * World) :=
  match n with
  | O => []
  | S n' =>
      let '(r, s1, w1) := read_weight s w in
      (r, s1, w1) :: raw_reads n' s1 w1
  end.

(** The channel and the environment after [n] raw reads. *)
Fixpoint after_reads (n : nat) (s : Scale) (w : World) : Scale * World :=
  match n with
  | O => (s, w)
  | S n' =>
      let '(_, s1, w1) := read_weight s w in
      after_reads n' s1 w1
  end.

(** A raw read the validation loop does not accept against the
    baseline [last]: no reading, or one outside the threshold. *)
Definition rejected (last : float) (r : option float * Scale * World) : Prop :=
  match fst (fst r) with
  | None => True
  | Some v => within_threshold v last = false
  end.

(** The invariant of a run from [main_init]: the state is coherent,
    the channels are the configured ports, every record has one slot
    per port, and a channel that is still without a baseline has left
    an empty slot in every record, each time with a reboot request. *)
Definition run_invariant (ports : list string) (st : Main) (recs : list Record_) : Prop :=
  last_weights st = last_valid_weight <$> scales st
  /\ port <$> scales st = ports
  /\ Forall (fun r => length (weights r) = length ports) recs
  /\ forall i,
       (last_valid_weight <$> scales st) !! i = Some None ->
       reboots st = length recs
       /\ Forall (fun r => weights r !! i = Some None) recs.

(** ** Sample channels and environments *)

(** A channel whose connection is open, with baseline [last]. *)
Definition connected_scale (last : option float) : Scale :=
  {| port := "/dev/ttyUSB0"; serial := Some {| handle := 0; is_open := true |};
     failed := false; last_valid_weight := last |}.

(** An environment in which the device answers with [replies], and in
    which the device path is found and opens [n] times. *)
Definition device_world (n : nat) (replies : list DeviceReply) : World :=
  {| path_exists_q := repeat true n; serial_open_q := repeat true n;
     device_q := replies; next_handle := 1; trace := [] |}.

(** The reference both names are bound to at start-up. *)
Definition node : Reference := db_reference "weights/12644".

(** The clock of two ticks: started at 10:03:27, polling at 10:10 and
    at 10:20. *)
Definition two_ticks_clock : list datetime :=
  [at_time 738000 10 3 27; at_time 738000 10 3 27; at_time 738000 10 10 0;
   at_time 738000 10 10 2; at_time 738000 10 10 2; at_time 738000 10 20 0].

(** A start with one port whose device never shows up, on a machine
    where the reboot command returns without effect. *)
Definition absent_device : Main :=
  main_init SCALE_PORTS
    {| path_exists_q := []; serial_open_q := []; device_q := [];
       next_handle := 0; trace := [] |}
    {| push_q := repeat true 4; db := ∅ |}
    {| csv_open_q := repeat true 2; csv_rows := None |}
    two_ticks_clock [true; true].

(** A start with one port whose device delivers one weight and is then
    unplugged. *)
Definition unplugged_device : Main :=
  main_init SCALE_PORTS
    {| path_exists_q := [true]; serial_open_q := [true];
       device_q := [Line "ST,GS,+010.00kg"; ReadRaises];
       next_handle := 0; trace := [] |}
    {| push_q := repeat true 4; db := ∅ |}
    {| csv_open_q := repeat true 2; csv_rows := None |}
    two_ticks_clock [true; true].


(* ================================================================== *)
(** * Shutdown *)
(* ================================================================== *)

(** [Scale.close]: the handle object stays in [self.serial], closed. *)
Definition close (s : Scale) : Scale :=
  match serial s with
  | Some h =>
      if is_open h
      then set_serial s (Some {| handle := handle h; is_open := false |}) (failed s)
      else s
  | None => s
  end.

(** [cleanup_and_exit]: every channel is closed, then the process
    exits. *)
Definition cleanup_and_exit (st : Main) : Main :=
  {| scales := close <$> scales st; last_weights := last_weights st;
     world := world st; firebase := firebase st; csv := csv st;
     clock_q := clock_q st; reboot_q := reboot_q st; reboots := reboots st;
     running := false |}.

(** ** Further notions used to state properties *)

(** The time spent in [time.sleep] along a trace, in microseconds. *)
Fixpoint slept (tr : list Event) : Z :=
  match tr with
  | [] => 0
  | EvSleep us :: tr' => (us + slept tr')%Z
  | _ :: tr' => slept tr'
  end.

(** The records of several ticks saved one after the other. *)
Definition save_records (recs : list Record_) (c : Csv) : Csv :=
  foldl (fun c r => save_to_csv (timestamp r) (weights r) c) c recs.

(** The row [save_to_csv] writes for a record. *)
Definition csv_row (r : Record_) : list Json :=
  JTime (timestamp r) :: map of_weight (weights r).

(** The records that reach the file when the [open] calls of their
    saves have the outcomes [outcomes]. *)
Fixpoint written (recs : list Record_) (outcomes : list bool) : list Record_ :=
  match recs, outcomes with
  | r :: recs', true :: os => r :: written recs' os
  | _ :: recs', false :: os => written recs' os
  | _, _ => []
  end.

(** A channel whose lack of a handle is reflected in its flag. *)
Definition flagged (s : Scale) : Prop := serial s = None -> failed s = true.

(** [s] holds no comma. *)
Definition no_comma (s : string) : Prop := PyStr.contains "," s = false.

(* ================================================================== *)
(** * Properties of the scheduler *)
(* ================================================================== *)

Section Scheduler.

Local Open Scope Z_scope.

Lemma of_us_to_us d : valid d -> of_us (to_us d) = d.
Proof.
  intros (Ho & Hh & Hm & Hs & Hu). destruct d as [o h m s u]; simpl in *.
  unfold of_us, to_us; simpl.
  assert (E1 : ((((o * 24 + h) * 60 + m) * 60 + s) * 1000000 + u) / 1000000
               = ((o * 24 + h) * 60 + m) * 60 + s)
    by (symmetry; apply Z.div_unique with u; lia).
  assert (E2 : (((o * 24 + h) * 60 + m) * 60 + s) / 60 = (o * 24 + h) * 60 + m)
    by (symmetry; apply Z.div_unique with s; lia).
  assert (E3 : ((o * 24 + h) * 60 + m) / 60 = o * 24 + h)
    by (symmetry; apply Z.div_unique with m; lia).
  rewrite E1, E2, E3. f_equal.
  - symmetry; apply Z.div_unique with h; lia.
  - symmetry; apply Z.mod_unique with o; lia.
  - symmetry; apply Z.mod_unique with (o * 24 + h); lia.
  - symmetry; apply Z.mod_unique with ((o * 24 + h) * 60 + m); lia.
  - symmetry; apply Z.mod_unique with (((o * 24 + h) * 60 + m) * 60 + s); lia.
Qed.

Lemma to_us_of_us z : to_us (of_us z) = z.
Proof.
  unfold to_us, of_us; simpl.
  pose proof (Z.div_mod z 1000000 ltac:(lia)).
  pose proof (Z.div_mod (z / 1000000) 60 ltac:(lia)).
  pose proof (Z.div_mod (z / 1000000 / 60) 60 ltac:(lia)).
  pose proof (Z.div_mod (z / 1000000 / 60 / 60) 24 ltac:(lia)).
  lia.
Qed.

Lemma of_us_fields z :
  0 <= hour (of_us z) < 24 /\ 0 <= minute (of_us z) < 60
  /\ 0 <= second (of_us z) < 60 /\ 0 <= microsecond (of_us z) < 1000000.
Proof.
  unfold of_us; simpl.
  repeat split; try (apply Z.mod_pos_bound; lia).
Qed.

(** Comparing field by field is comparing the instants. *)
Lemma ltb_to_us a b :
  valid a -> valid b -> (DateTime.ltb a b = true <-> to_us a < to_us b).
Proof.
  intros (Ha1 & Ha2 & Ha3 & Ha4 & Ha5) (Hb1 & Hb2 & Hb3 & Hb4 & Hb5).
  unfold DateTime.ltb, to_us.
  destruct (Z.compare_spec (ordinal a) (ordinal b));
    [| split; [lia | reflexivity] | split; [discriminate | lia]].
  destruct (Z.compare_spec (hour a) (hour b));
    [| split; [lia | reflexivity] | split; [discriminate | lia]].
  destruct (Z.compare_spec (minute a) (minute b));
    [| split; [lia | reflexivity] | split; [discriminate | lia]].
  destruct (Z.compare_spec (second a) (second b));
    [| split; [lia | reflexivity] | split; [discriminate | lia]].
  rewrite Z.ltb_lt. lia.
Qed.

Lemma leb_to_us a b :
  valid a -> valid b -> (DateTime.leb a b = true <-> to_us a <= to_us b).
Proof.
  intros Ha Hb. unfold DateTime.leb. rewrite negb_true_iff.
  pose proof (ltb_to_us b a Hb Ha) as H.
  destruct (DateTime.ltb b a); split; intros; try discriminate; try reflexivity.
  - destruct H as [H _]. specialize (H eq_refl). lia.
  - destruct H as [_ H]. assert (to_us b < to_us a -> False) by (intros K; apply H in K; discriminate). lia.
Qed.

Lemma quot_rem_unique k a x b y :
  0 <= x < k -> 0 <= y < k -> a * k + x = b * k + y -> a = b /\ x = y.
Proof.
  intros Hx Hy E.
  assert (a = b) by nia. subst. lia.
Qed.

Lemma to_us_fields d :
  to_us d
  = (((ordinal d * 24 + hour d) * 60 + minute d) * 60 + second d) * 1000000
    + microsecond d.
Proof. reflexivity. Qed.

Lemma slot_fields o h m s u X :
  0 <= s < 60 -> 0 <= u < 1000000 ->
  (((o * 24 + h) * 60 + m) * 60 + s) * 1000000 + u = X * 600000000 ->
  (o * 24 + h) * 60 + m = X * 10 /\ s = 0 /\ u = 0.
Proof.
  intros Hs Hu E.
  destruct (quot_rem_unique 1000000 (((o * 24 + h) * 60 + m) * 60 + s) u (X * 600) 0)
    as [E1 E2]; [lia | lia | lia |].
  destruct (quot_rem_unique 60 ((o * 24 + h) * 60 + m) s (X * 10) 0)
    as [E3 E4]; [lia | lia | lia |].
  auto.
Qed.

Lemma add_in_range d td r :
  r = of_us (to_us d + td) -> 1 <= ordinal r <= MAXORDINAL ->
  DateTime.add d td = Some r.
Proof.
  intros -> [Hlo Hhi]. unfold DateTime.add.
  apply Z.leb_le in Hlo. apply Z.leb_le in Hhi. rewrite Hlo, Hhi. reflexivity.
Qed.

Lemma to_us_truncate d :
  to_us (truncate_to_minute d) = to_us d - (second d * 1000000 + microsecond d).
Proof. unfold to_us, truncate_to_minute; cbn [ordinal hour minute second microsecond]. lia. Qed.

(** The instant [get_next_slot] computes: the next multiple of ten
    minutes above the ten-minute block [now] lies in. *)
Lemma get_next_slot_us now :
  valid now -> ordinal now < MAXORDINAL ->
  exists s, get_next_slot now = Some s /\ valid s /\ on_slot s
            /\ to_us s = (to_us now / 600000000 + 1) * 600000000.
Proof.
  intros Hv Ho. pose proof Hv as (H1 & H2 & H3 & H4 & H5).
  remember ((ordinal now * 24 + hour now) * 60 + minute now) as M eqn:EM.
  remember (second now * 1000000 + microsecond now) as r eqn:Er.
  assert (Hnow : to_us now = M * 60000000 + r) by (unfold to_us; lia).
  assert (Hr : 0 <= r < 60000000) by lia.
  assert (HM : minute now mod 10 = M mod 10).
  { rewrite EM.
    replace ((ordinal now * 24 + hour now) * 60 + minute now)
      with (minute now + ((ordinal now * 24 + hour now) * 6) * 10) by lia.
    now rewrite Z.mod_add by lia. }
  pose proof (Z.div_mod M 10 ltac:(lia)) as HdM.
  pose proof (Z.mod_pos_bound M 10 ltac:(lia)) as HmM.
  remember (M mod 10) as m10 eqn:Em10. remember (M / 10) as q10 eqn:Eq10.
  (* the first addition *)
  remember (of_us (to_us now + minutes 10)) as t eqn:Et.
  assert (Ht : to_us t = (M + 10) * 60000000 + r)
    by (rewrite Et, to_us_of_us, Hnow; unfold minutes; lia).
  pose proof (of_us_fields (to_us now + minutes 10)) as Hf. rewrite <- Et in Hf.
  destruct Hf as (F1 & F2 & F3 & F4).
  assert (Hsplit : (ordinal t * 24 + hour t) * 60 + minute t = M + 10
                   /\ second t * 1000000 + microsecond t = r).
  { apply (quot_rem_unique 60000000); [lia | lia |]. unfold to_us in Ht. lia. }
  destruct Hsplit as [Ht1 Ht2].
  assert (Hadd1 : DateTime.add now (minutes 10) = Some t).
  { apply add_in_range; [exact Et|]. unfold MAXORDINAL in *. lia. }
  (* the truncation, then the subtraction *)
  remember (of_us (to_us (truncate_to_minute t) + - minutes (minute now mod 10)))
    as s eqn:Es.
  assert (Hs : to_us s = (q10 + 1) * 600000000).
  { rewrite Es, to_us_of_us, to_us_truncate, Ht, Ht2, HM. unfold minutes. lia. }
  pose proof (of_us_fields (to_us (truncate_to_minute t)
                            + - minutes (minute now mod 10))) as Hg.
  rewrite <- Es in Hg. destruct Hg as (G1 & G2 & G3 & G4).
  pose proof Hs as Hs'. rewrite to_us_fields in Hs'.
  destruct (slot_fields (ordinal s) (hour s) (minute s) (second s) (microsecond s)
              (q10 + 1) G3 G4 Hs') as (Hs2 & K2 & K1).
  assert (K3 : minute s mod 10 = 0).
  { replace (minute s) with (0 + ((q10 + 1) - (ordinal s * 24 + hour s) * 6) * 10) by lia.
    now rewrite Z.mod_add by lia. }
  assert (K4 : ordinal now <= ordinal s <= ordinal now + 1) by lia.
  assert (Hadd2 : DateTime.sub (truncate_to_minute t) (minutes (minute now mod 10))
                  = Some s).
  { unfold DateTime.sub. apply add_in_range; [exact Es|]. unfold MAXORDINAL in *. lia. }
  exists s. split.
  { unfold get_next_slot. rewrite Hadd1. exact Hadd2. }
  split.
  { unfold valid, MAXORDINAL in *. lia. }
  split.
  { unfold on_slot. auto. }
  assert (E : to_us now / 600000000 = q10).
  { rewrite Hnow. symmetry. apply Z.div_unique with (m10 * 60000000 + r); lia. }
  rewrite E. exact Hs.
Qed.

(** C7. For every wall-clock time [now] (ten minutes at least before
    the end of the calendar, so that the additions stay in range) the
    scheduler's next slot is the smallest time strictly greater than
    [now] with seconds and microseconds zero whose minute is a multiple
    of 10. *)
Theorem get_next_slot_smallest (now : datetime) :
  valid now -> ordinal now < MAXORDINAL ->
  exists s, get_next_slot now = Some s /\ valid s /\ on_slot s
            /\ DateTime.ltb now s = true
            /\ forall s', valid s' -> on_slot s' -> DateTime.ltb now s' = true ->
                           DateTime.leb s s' = true.
Proof.
  intros Hv Ho.
  destruct (get_next_slot_us now Hv Ho) as (s & Hs & Hvs & Hon & Hus).
  exists s. split; [assumption|]. split; [assumption|]. split; [assumption|]. split.
  - apply ltb_to_us; try assumption. rewrite Hus.
    pose proof (Z.div_mod (to_us now) 600000000 ltac:(lia)).
    pose proof (Z.mod_pos_bound (to_us now) 600000000 ltac:(lia)). lia.
  - intros s' Hv' (S1 & S2 & S3) Hlt.
    apply leb_to_us; try assumption. rewrite Hus.
    apply ltb_to_us in Hlt; try assumption.
    destruct Hv' as (V1 & V2 & V3 & V4 & V5).
    pose proof (Z.div_mod (minute s') 10 ltac:(lia)) as Hm'.
    rewrite S3 in Hm'.
    assert (E : to_us s' = ((ordinal s' * 24 + hour s') * 6 + minute s' / 10) * 600000000)
      by (unfold to_us; lia).
    rewrite E in *.
    pose proof (Z.div_mod (to_us now) 600000000 ltac:(lia)).
    pose proof (Z.mod_pos_bound (to_us now) 600000000 ltac:(lia)).
    nia.
Qed.

(** The claim's two examples, on any day [day]. *)
Example next_slot_from_10_03_27 :
  get_next_slot (at_time 738000 10 3 27) = Some (at_time 738000 10 10 0).
Proof. reflexivity. Qed.

Example next_slot_from_10_10_00 :
  get_next_slot (at_time 738000 10 10 0) = Some (at_time 738000 10 20 0).
Proof. reflexivity. Qed.

Example next_slot_over_midnight :
  get_next_slot {| ordinal := 738000; hour := 23; minute := 55; second := 59;
                   microsecond := 999999 |}
  = Some (at_time 738001 0 0 0).
Proof. reflexivity. Qed.

(** On the last day of the calendar the addition overflows in the last
    ten minutes only. *)
Example next_slot_overflow :
  get_next_slot (at_time MAXORDINAL 23 50 0) = None.
Proof. reflexivity. Qed.

Lemma get_next_slot_smallest_witness :
  exists s, get_next_slot (at_time 738000 10 3 27) = Some s /\ valid s /\ on_slot s
            /\ DateTime.ltb (at_time 738000 10 3 27) s = true
            /\ forall s', valid s' -> on_slot s' ->
                           DateTime.ltb (at_time 738000 10 3 27) s' = true ->
                           DateTime.leb s s' = true.
Proof.
  apply (get_next_slot_smallest (at_time 738000 10 3 27)).
  - unfold valid, at_time, MAXORDINAL; simpl; lia.
  - unfold at_time, MAXORDINAL; simpl; lia.
Defined.

End Scheduler.
(* ================================================================== *)
(** * Properties of the Line Decoder and of the raw read *)
(* ================================================================== *)

Section Decoder.

Lemma emit_device_q e w : device_q (emit e w) = device_q w.
Proof. reflexivity. Qed.

Lemma connect_loop_device_q n s w :
  device_q (snd (connect_loop n s w)) = device_q w.
Proof.
  revert w. induction n as [|n IH]; intros w; simpl; [reflexivity|].
  destruct (pop false (path_exists_q w)) as [found q] eqn:Ep.
  unfold os_path_exists. rewrite Ep. destruct found.
  - unfold serial_Serial; simpl.
    destruct (pop false (serial_open_q w)) as [ok q'] eqn:Eo; destruct ok; simpl.
    + reflexivity.
    + rewrite IH. reflexivity.
  - rewrite IH. reflexivity.
Qed.

Lemma connect_device_q s w : device_q (snd (connect s w)) = device_q w.
Proof. apply connect_loop_device_q. Qed.

(** Neither [connect] nor [read_weight] assigns [last_valid_weight]. *)
Lemma connect_loop_last_valid_weight n s w :
  last_valid_weight (fst (connect_loop n s w)) = last_valid_weight s.
Proof.
  revert w. induction n as [|n IH]; intros w; simpl; [reflexivity|].
  destruct (os_path_exists (port s) w) as [found w1]. destruct found.
  - destruct (serial_Serial (port s) w1) as [[h|] w2]; [reflexivity | apply IH].
  - apply IH.
Qed.

Lemma connect_loop_port n s w : port (fst (connect_loop n s w)) = port s.
Proof.
  revert w. induction n as [|n IH]; intros w; simpl; [reflexivity|].
  destruct (os_path_exists (port s) w) as [found w1]. destruct found.
  - destruct (serial_Serial (port s) w1) as [[h|] w2]; [reflexivity | apply IH].
  - apply IH.
Qed.

(** What one [try] block does to the queue of device replies: it
    leaves it alone, or consumes its head. *)
Lemma try_block_cases s w :
  match try_block s w with
  | (Continue, s1, w1) => device_q w1 = device_q w
  | (o, s1, w1) =>
      device_q w1 = snd (pop (Line "") (device_q w))
      /\ match fst (pop (Line "") (device_q w)) with
         | Line raw =>
             match decode_line (PyStr.strip raw) with
             | Weight v => o = Return v
             | ValueError => o = Raise
             | NoUnit => o = Next
             end
         | _ => o = Raise
         end
  end.
Proof.
  unfold try_block.
  destruct (if needs_connect s then connect s w else (s, w)) as [s1 w1] eqn:E.
  assert (Hq : device_q w1 = device_q w).
  { destruct (needs_connect s).
    - pose proof (connect_device_q s w) as H. rewrite E in H. exact H.
    - inversion E; reflexivity. }
  destruct (serial s1) as [h|]; [|exact Hq].
  unfold device_read. rewrite Hq.
  destruct (pop (Line "") (device_q w)) as [r q] eqn:Ep.
  destruct r as [| |raw]; simpl; try (split; reflexivity).
  destruct (decode_line (PyStr.strip raw)); simpl; split; reflexivity.
Qed.

Lemma pop_Forall {A} (P : A -> Prop) d q :
  P d -> Forall P q -> P (fst (pop d q)) /\ Forall P (snd (pop d q)).
Proof.
  intros Hd Hq. destruct q as [|x q]; simpl.
  - split; [exact Hd | constructor].
  - inversion Hq; subst. split; assumption.
Qed.

Lemma timeout_is_no_reading : is_reading (Line "") = false.
Proof. reflexivity. Qed.

(** Noise never becomes an error: when none of the replies still to
    come carries a weight, the raw read ends with [None]. *)
Lemma read_weight_loop_noise n s w :
  Forall (fun r => is_reading r = false) (device_q w) ->
  fst (fst (read_weight_loop n s w)) = None.
Proof.
  revert s w. induction n as [|n IH]; intros s w Hq; simpl; [reflexivity|].
  pose proof (try_block_cases s w) as Hc.
  destruct (pop_Forall _ (Line "") (device_q w) timeout_is_no_reading Hq) as [Hh Ht].
  destruct (try_block s w) as [[o s1] w1].
  destruct o as [v| | |].
  - exfalso. destruct Hc as [_ Hc].
    destruct (fst (pop (Line "") (device_q w))) as [| |raw]; try discriminate.
    simpl in Hh. destruct (decode_line (PyStr.strip raw)); discriminate.
  - destruct Hc as [Hc _].
    destruct (connect s1 w1) as [s2 w2] eqn:E.
    apply IH. simpl.
    pose proof (connect_device_q s1 w1) as H. rewrite E in H. simpl in H.
    rewrite H, Hc. exact Ht.
  - apply IH. rewrite Hc. exact Hq.
  - destruct Hc as [Hc _]. apply IH. simpl. rewrite Hc. exact Ht.
Qed.

(** On an open connection, a line that decodes to a weight is returned
    by the first attempt. *)
Lemma read_weight_first_line s w h raw q v :
  serial s = Some h -> is_open h = true ->
  device_q w = Line raw :: q ->
  decode_line (PyStr.strip raw) = Weight v ->
  exists w', read_weight s w = (Some v, s, w') /\ device_q w' = q.
Proof.
  intros Hs Ho Hq Hd. unfold read_weight, READ_ATTEMPTS; simpl.
  unfold try_block, needs_connect. rewrite Hs, Ho; simpl. rewrite Hs.
  unfold device_read. rewrite Hq; simpl. rewrite Hd.
  eexists; split; reflexivity.
Qed.

Example decode_reading : decode_line "ST,GS,+012.34kg" = Weight 12.34%float.
Proof. vm_compute. reflexivity. Qed.

Example decode_no_unit : decode_line "ST,GS,+012.34" = NoUnit.
Proof. vm_compute. reflexivity. Qed.

Example decode_malformed : decode_line "ST,GS,+12.3.4kg" = ValueError.
Proof. vm_compute. reflexivity. Qed.

(** C2, as the code has it.  For every raw input line: if the stripped
    line contains "kg" and its last comma-delimited field, once every
    "kg" and every "+" is removed and the rest trimmed, is a well-formed
    number, the decoder returns that number as a float, and so does the
    raw read that receives the line on an open connection; if the line
    has no "kg" or that cleaned field is malformed, the decoder yields
    no weight, and a raw read fed with this line alone ends with "no
    reading" ([None]), not with an error. *)
Theorem line_decoder_reading (raw : string) :
  let line := PyStr.strip raw in
  (forall v,
      PyStr.contains "kg" line = true ->
      PyFloat.float_of_str (weight_str line) = Some v ->
      decode_line line = Weight v
      /\ forall s w h q,
           serial s = Some h -> is_open h = true ->
           device_q w = Line raw :: q ->
           exists w', read_weight s w = (Some v, s, w'))
  /\ (PyStr.contains "kg" line = false
       \/ PyFloat.float_of_str (weight_str line) = None ->
      (forall v, decode_line line <> Weight v)
      /\ forall s w,
           Forall (eq (Line raw)) (device_q w) ->
           fst (fst (read_weight s w)) = None).
Proof.
  intros line. split.
  - intros v Hkg Hf.
    assert (Hd : decode_line line = Weight v)
      by (unfold decode_line; rewrite Hkg, Hf; reflexivity).
    split; [exact Hd|].
    intros s w h q Hs Ho Hq.
    destruct (read_weight_first_line s w h raw q v Hs Ho Hq Hd) as (w' & Hr & _).
    exists w'. exact Hr.
  - intros Hbad.
    assert (Hd : forall v, decode_line line <> Weight v).
    { intros v. unfold decode_line. destruct Hbad as [Hkg | Hf].
      - rewrite Hkg. discriminate.
      - rewrite Hf. destruct (PyStr.contains "kg" line); discriminate. }
    split; [exact Hd|].
    intros s w Hq. apply read_weight_loop_noise.
    eapply Forall_impl; [exact Hq|].
    intros r <-. simpl. fold line.
    destruct (decode_line line) as [v| |] eqn:E; try reflexivity.
    exfalso. exact (Hd v eq_refl).
Qed.

Lemma line_decoder_reading_witness :
  decode_line "ST,GS,+012.34kg" = Weight 12.34%float
  /\ fst (fst (read_weight
                 {| port := "/dev/ttyUSB0"; serial := None; failed := true;
                    last_valid_weight := None |}
                 {| path_exists_q := []; serial_open_q := [];
                    device_q := [Line "ST,GS,+012.34"; Line "ST,GS,+012.34"];
                    next_handle := 0; trace := [] |})) = None.
Proof.
  split.
  - apply (proj1 (line_decoder_reading "ST,GS,+012.34kg") 12.34%float);
      vm_compute; reflexivity.
  - apply (proj2 (line_decoder_reading "ST,GS,+012.34")).
    + left. vm_compute. reflexivity.
    + repeat constructor.
Defined.

(** C2, as the claim words it, fails: a field with a plus sign inside
    is malformed once the suffix and a leading plus are taken off, and
    yet the decoder returns a weight for it, because [replace] removes
    every plus. *)
Lemma line_decoder_inner_plus :
  PyStr.contains "kg" "ST,GS,1+2kg" = true
  /\ Spec.numeric_field "ST,GS,1+2kg" = "1+2"
  /\ PyFloat.float_of_str (Spec.numeric_field "ST,GS,1+2kg") = None
  /\ decode_line "ST,GS,1+2kg" = Weight 12%float.
Proof. vm_compute. repeat split; reflexivity. Qed.

(** The same with a second unit marker inside the field. *)
Example line_decoder_inner_unit :
  PyFloat.float_of_str (Spec.numeric_field "ST,GS,1kg2kg") = None
  /\ decode_line "ST,GS,1kg2kg" = Weight 12%float.
Proof. vm_compute. split; reflexivity. Qed.

Lemma try_block_open_line s w h raw q :
  serial s = Some h -> is_open h = true -> device_q w = Line raw :: q ->
  try_block s w
  = (match decode_line (PyStr.strip raw) with
     | Weight v => Return v
     | ValueError => Raise
     | NoUnit => Next
     end,
     s,
     emit (EvReadline (handle h))
       (emit (EvReset (handle h))
          {| path_exists_q := path_exists_q w; serial_open_q := serial_open_q w;
             device_q := q; next_handle := next_handle w; trace := trace w |})).
Proof.
  intros Hs Ho Hq. unfold try_block, needs_connect. rewrite Hs, Ho. cbn [negb].
  rewrite Hs. unfold device_read. rewrite Hq. cbn [pop].
  destruct (decode_line (PyStr.strip raw)); reflexivity.
Qed.

Lemma connect_first_attempt s w ex op :
  path_exists_q w = true :: ex -> serial_open_q w = true :: op ->
  connect s w
  = (set_serial s (Some {| handle := next_handle w; is_open := true |}) false,
     {| path_exists_q := ex; serial_open_q := op; device_q := device_q w;
        next_handle := S (next_handle w);
        trace := trace w ++ [EvExists (port s) true;
                             EvOpen (port s) (Some (next_handle w))] |}).
Proof.
  intros Hex Hop. unfold connect, MAX_RECONNECT_ATTEMPTS. cbn [connect_loop].
  unfold os_path_exists. rewrite Hex. cbn [pop].
  unfold serial_Serial. cbn [serial_open_q emit]. rewrite Hop. cbn [pop].
  unfold emit. cbn [path_exists_q serial_open_q device_q next_handle trace].
  rewrite <- app_assoc. reflexivity.
Qed.

(** C10. A line with "kg" whose numeric text [float] rejects makes the
    attempt that reads it raise in the decode step; the [except] clause
    of [read_weight] catches it and calls [connect], which opens a new
    serial connection before the delay, and the next attempt reads
    through the new handle.  With a weight line next, the raw read
    returns that weight on a channel whose connection has been
    replaced, the old handle left behind; the same read over a line
    without "kg" in place of the malformed one returns the weight with
    the channel as it was. *)
Theorem decode_failure_reconnects
    (line raw : string) (v : float) (s : Scale) (w : World) (h : Serial)
    (q : list DeviceReply) (ex op : list bool) :
  PyStr.contains "kg" (PyStr.strip line) = true ->
  PyFloat.float_of_str (weight_str (PyStr.strip line)) = None ->
  serial s = Some h -> is_open h = true -> handle h < next_handle w ->
  device_q w = Line line :: Line raw :: q ->
  path_exists_q w = true :: ex -> serial_open_q w = true :: op ->
  decode_line (PyStr.strip raw) = Weight v ->
  fst (try_block s w) = (Raise, s)
  /\ read_weight s w
     = (Some v,
        set_serial s (Some {| handle := next_handle w; is_open := true |}) false,
        {| path_exists_q := ex; serial_open_q := op; device_q := q;
           next_handle := S (next_handle w);
           trace := trace w ++ [EvReset (handle h); EvReadline (handle h);
                                EvExists (port s) true;
                                EvOpen (port s) (Some (next_handle w));
                                EvSleep READ_DELAY;
                                EvReset (next_handle w);
                                EvReadline (next_handle w)] |})
  /\ serial (snd (fst (read_weight s w))) <> serial s
  /\ forall noise w0,
       PyStr.contains "kg" (PyStr.strip noise) = false ->
       device_q w0 = Line noise :: Line raw :: q ->
       fst (read_weight s w0) = (Some v, s).
Proof.
  intros Hkg Hfloat Hs Ho Hlt Hq Hex Hop Hraw.
  assert (Hd : decode_line (PyStr.strip line) = ValueError)
    by (unfold decode_line; rewrite Hkg, Hfloat; reflexivity).
  pose proof (try_block_open_line s w h line (Line raw :: q) Hs Ho Hq) as Ht.
  rewrite Hd in Ht.
  assert (Hread : read_weight s w
     = (Some v,
        set_serial s (Some {| handle := next_handle w; is_open := true |}) false,
        {| path_exists_q := ex; serial_open_q := op; device_q := q;
           next_handle := S (next_handle w);
           trace := trace w ++ [EvReset (handle h); EvReadline (handle h);
                                EvExists (port s) true;
                                EvOpen (port s) (Some (next_handle w));
                                EvSleep READ_DELAY;
                                EvReset (next_handle w);
                                EvReadline (next_handle w)] |})).
  { unfold read_weight, READ_ATTEMPTS. cbn [read_weight_loop]. rewrite Ht.
    erewrite connect_first_attempt by (cbn [emit path_exists_q serial_open_q]; eassumption).
    cbn [emit device_q next_handle trace sleep].
    erewrite try_block_open_line; [| reflexivity | reflexivity | reflexivity].
    rewrite Hraw. unfold sleep, emit.
    cbn [path_exists_q serial_open_q device_q next_handle trace handle port
         set_serial].
    rewrite <- !app_assoc. reflexivity. }
  split; [rewrite Ht; reflexivity|].
  split; [exact Hread|].
  split.
  - rewrite Hread, Hs. cbn [fst snd set_serial serial].
    intros E. injection E as E. rewrite <- E in Hlt. cbn [handle] in Hlt. lia.
  - intros noise w0 Hn Hq0.
    assert (Hd0 : decode_line (PyStr.strip noise) = NoUnit)
      by (unfold decode_line; rewrite Hn; reflexivity).
    unfold read_weight, READ_ATTEMPTS. cbn [read_weight_loop].
    rewrite (try_block_open_line s w0 h noise (Line raw :: q) Hs Ho Hq0), Hd0.
    erewrite try_block_open_line; [| exact Hs | exact Ho | reflexivity].
    rewrite Hraw. reflexivity.
Qed.

Lemma decode_failure_reconnects_witness :
  PyStr.contains "kg" "ST,GS,+12.3.4kg" = true
  /\ PyFloat.float_of_str (Spec.numeric_field "ST,GS,+12.3.4kg") = None
  /\ fst (try_block (connected_scale None)
            (device_world 1 [Line "ST,GS,+12.3.4kg"; Line "ST,GS,+012.34kg"]))
     = (Raise, connected_scale None)
  /\ read_weight (connected_scale None)
       (device_world 1 [Line "ST,GS,+12.3.4kg"; Line "ST,GS,+012.34kg"])
     = (Some 12.34%float,
        set_serial (connected_scale None) (Some {| handle := 1; is_open := true |})
          false,
        {| path_exists_q := []; serial_open_q := []; device_q := [];
           next_handle := 2;
           trace := [EvReset 0; EvReadline 0; EvExists "/dev/ttyUSB0" true;
                     EvOpen "/dev/ttyUSB0" (Some 1); EvSleep READ_DELAY;
                     EvReset 1; EvReadline 1] |}).
Proof.
  destruct (decode_failure_reconnects "ST,GS,+12.3.4kg" "ST,GS,+012.34kg" 12.34%float
              (connected_scale None)
              (device_world 1 [Line "ST,GS,+12.3.4kg"; Line "ST,GS,+012.34kg"])
              {| handle := 0; is_open := true |} [] [] [])
    as (H1 & H2 & _).
  - vm_compute. reflexivity.
  - vm_compute. reflexivity.
  - reflexivity.
  - reflexivity.
  - simpl. lia.
  - reflexivity.
  - reflexivity.
  - reflexivity.
  - vm_compute. reflexivity.
  - split; [vm_compute; reflexivity|].
    split; [vm_compute; reflexivity|].
    split; [exact H1 | exact H2].
Defined.

(** The same on a concrete run: five malformed lines make the raw read
    end with [None] after five reconnections, the handle renewed each
    time. *)
Example decode_failure_run :
  let s := {| port := "/dev/ttyUSB0"; serial := Some {| handle := 0; is_open := true |};
              failed := false; last_valid_weight := None |} in
  let w := {| path_exists_q := repeat true 5; serial_open_q := repeat true 5;
              device_q := repeat (Line "ST,GS,+12.3.4kg") 5;
              next_handle := 1; trace := [] |} in
  let '(r, s', w') := read_weight s w in
  r = None /\ serial s' = Some {| handle := 5; is_open := true |}
  /\ device_q w' = [].
Proof. vm_compute. repeat split; reflexivity. Qed.

End Decoder.
(* ================================================================== *)
(** * Properties of the validated read *)
(* ================================================================== *)

Section Validation.

Lemma try_block_last_valid_weight s w :
  last_valid_weight (snd (fst (try_block s w))) = last_valid_weight s.
Proof.
  unfold try_block.
  destruct (if needs_connect s then connect s w else (s, w)) as [s1 w1] eqn:E.
  assert (H : last_valid_weight s1 = last_valid_weight s).
  { destruct (needs_connect s).
    - pose proof (connect_loop_last_valid_weight MAX_RECONNECT_ATTEMPTS s w) as H.
      unfold connect in E. rewrite E in H. exact H.
    - inversion E; reflexivity. }
  destruct (serial s1) as [h|]; [|exact H].
  destruct (device_read (handle h) w1) as [[| |raw] w2]; try exact H.
  destruct (decode_line (PyStr.strip raw)); exact H.
Qed.

Lemma read_weight_loop_last_valid_weight n s w :
  last_valid_weight (snd (fst (read_weight_loop n s w))) = last_valid_weight s.
Proof.
  revert s w. induction n as [|n IH]; intros s w; simpl; [reflexivity|].
  pose proof (try_block_last_valid_weight s w) as Ht.
  destruct (try_block s w) as [[o s1] w1]; simpl in Ht.
  destruct o as [v| | |]; simpl; try (rewrite IH; exact Ht); [exact Ht|].
  pose proof (connect_loop_last_valid_weight MAX_RECONNECT_ATTEMPTS s1 w1) as Hc.
  unfold connect. destruct (connect_loop MAX_RECONNECT_ATTEMPTS s1 w1) as [s2 w2].
  rewrite IH. simpl in Hc. congruence.
Qed.

(** The raw read leaves the baseline alone. *)
Lemma read_weight_last_valid_weight s w r s1 w1 :
  read_weight s w = (r, s1, w1) -> last_valid_weight s1 = last_valid_weight s.
Proof.
  intros E. pose proof (read_weight_loop_last_valid_weight READ_ATTEMPTS s w) as H.
  unfold read_weight in E. rewrite E in H. exact H.
Qed.

Lemma after_reads_last_valid_weight n s w :
  last_valid_weight (fst (after_reads n s w)) = last_valid_weight s.
Proof.
  revert s w. induction n as [|n IH]; intros s w; simpl; [reflexivity|].
  destruct (read_weight s w) as [[r s1] w1] eqn:E.
  rewrite IH. eapply read_weight_last_valid_weight; exact E.
Qed.

(** Rejected reads are skipped: after [k] of them the loop is where it
    would be, started with [k] attempts less on the state they leave. *)
Lemma validation_loop_skip k n last s w :
  Forall (rejected last) (raw_reads k s w) ->
  validation_loop (k + n) last s w
  = validation_loop n last (fst (after_reads k s w)) (snd (after_reads k s w)).
Proof.
  revert s w. induction k as [|k IH]; intros s w Hrej; simpl; [reflexivity|].
  simpl in Hrej. destruct (read_weight s w) as [[r s1] w1] eqn:E.
  inversion Hrej as [|x l Hx Hl]; subst. unfold rejected in Hx; simpl in Hx.
  destruct r as [v|].
  - rewrite Hx. apply IH; exact Hl.
  - apply IH; exact Hl.
Qed.

(** C5. For a channel with a baseline [last]: the raw read that comes
    after [k < 10] rejected ones and yields a weight [v] is accepted --
    returned at once, and stored as the new baseline -- when
    [abs(v - last) <= 0.5]; otherwise it is rejected: the baseline is
    left as it was and the loop goes on with the attempts that remain
    of the ten, from the state the read left. *)
Theorem validated_read_threshold (s : Scale) (w : World) (last : float) (k : nat) :
  last_valid_weight s = Some last ->
  k < MAX_VALIDATION_RETRIES ->
  Forall (rejected last) (raw_reads k s w) ->
  forall v s' w',
    read_weight (fst (after_reads k s w)) (snd (after_reads k s w)) = (Some v, s', w') ->
    last_valid_weight s' = Some last
    /\ if within_threshold v last
       then get_validated_weight s w = (Some v, set_last_valid_weight s' v, w')
       else get_validated_weight s w
            = validation_loop (MAX_VALIDATION_RETRIES - S k) last s' w'.
Proof.
  intros Hlast Hk Hrej v s' w' Hread.
  split.
  - rewrite (read_weight_last_valid_weight _ _ _ _ _ Hread).
    rewrite after_reads_last_valid_weight. exact Hlast.
  - unfold get_validated_weight. rewrite Hlast.
    assert (Hskip : validation_loop MAX_VALIDATION_RETRIES last s w
                    = validation_loop (S (MAX_VALIDATION_RETRIES - S k)) last
                        (fst (after_reads k s w)) (snd (after_reads k s w))).
    { rewrite <- (validation_loop_skip k (S (MAX_VALIDATION_RETRIES - S k)) last s w Hrej).
      f_equal; lia. }
    rewrite Hskip. cbn [validation_loop]. rewrite Hread.
    destruct (within_threshold v last); reflexivity.
Qed.

(** C6. For a channel with a baseline, when the ten raw reads of the
    validation loop are all rejected, the validated read returns the
    baseline, and the baseline field is as it was. *)
Theorem validated_read_fallback (s : Scale) (w : World) (last : float) :
  last_valid_weight s = Some last ->
  Forall (rejected last) (raw_reads MAX_VALIDATION_RETRIES s w) ->
  get_validated_weight s w
  = (Some last, fst (after_reads MAX_VALIDATION_RETRIES s w),
     snd (after_reads MAX_VALIDATION_RETRIES s w))
  /\ last_valid_weight (fst (after_reads MAX_VALIDATION_RETRIES s w)) = Some last.
Proof.
  intros Hlast Hrej.
  assert (H : last_valid_weight (fst (after_reads MAX_VALIDATION_RETRIES s w)) = Some last)
    by (rewrite after_reads_last_valid_weight; exact Hlast).
  split; [|exact H].
  unfold get_validated_weight. rewrite Hlast.
  assert (Hskip : validation_loop MAX_VALIDATION_RETRIES last s w
                  = validation_loop 0 last
                      (fst (after_reads MAX_VALIDATION_RETRIES s w))
                      (snd (after_reads MAX_VALIDATION_RETRIES s w))).
  { rewrite <- (validation_loop_skip MAX_VALIDATION_RETRIES 0 last s w Hrej).
    f_equal; lia. }
  rewrite Hskip. cbn [validation_loop]. rewrite H. reflexivity.
Qed.

(** C8. For a channel without a baseline, the weight of the first
    successful raw read, whatever it is, is returned and becomes the
    baseline. *)
Theorem first_read_accepted (s : Scale) (w : World) (v : float) (s1 : Scale) (w1 : World) :
  last_valid_weight s = None ->
  read_weight s w = (Some v, s1, w1) ->
  get_validated_weight s w = (Some v, set_last_valid_weight s1 v, w1)
  /\ last_valid_weight (snd (fst (get_validated_weight s w))) = Some v.
Proof.
  intros Hnone Hread. unfold get_validated_weight.
  rewrite Hnone, Hread. split; reflexivity.
Qed.

(** Without a baseline and without a reading there is nothing to fall
    back on: the validated read returns [None]. *)
Lemma first_read_missing s w s1 w1 :
  last_valid_weight s = None ->
  read_weight s w = (None, s1, w1) ->
  get_validated_weight s w = (None, s1, w1) /\ last_valid_weight s1 = None.
Proof.
  intros Hnone Hread. unfold get_validated_weight. rewrite Hnone, Hread.
  split; [reflexivity|].
  rewrite (read_weight_last_valid_weight _ _ _ _ _ Hread). exact Hnone.
Qed.

(** The validated read returns [None] only to a channel that has no
    baseline, and leaves it without one. *)
Lemma validation_loop_some n last s w :
  last_valid_weight s = Some last ->
  exists v, fst (fst (validation_loop n last s w)) = Some v
            /\ last_valid_weight (snd (fst (validation_loop n last s w))) = Some v.
Proof.
  revert s w. induction n as [|n IH]; intros s w Hlast; simpl.
  - exists last. split; exact Hlast.
  - destruct (read_weight s w) as [[r s1] w1] eqn:E.
    pose proof (read_weight_last_valid_weight _ _ _ _ _ E) as H1.
    rewrite Hlast in H1.
    destruct r as [v|]; [|apply IH; exact H1].
    destruct (within_threshold v last); [|apply IH; exact H1].
    exists v. split; reflexivity.
Qed.

(** What the validated read returns is the baseline it leaves. *)
Lemma get_validated_weight_baseline s w :
  last_valid_weight (snd (fst (get_validated_weight s w)))
  = fst (fst (get_validated_weight s w)).
Proof.
  unfold get_validated_weight. destruct (last_valid_weight s) as [last|] eqn:Hl.
  - destruct (validation_loop_some MAX_VALIDATION_RETRIES last s w Hl) as (v & H1 & H2).
    congruence.
  - destruct (read_weight s w) as [[r s1] w1] eqn:E.
    destruct r as [v|]; simpl; [reflexivity|].
    rewrite (read_weight_last_valid_weight _ _ _ _ _ E). exact Hl.
Qed.

(** The examples of the specification: baseline 10.0, threshold 0.5. *)
Example accept_10_3 :
  let '(r, s', _) := get_validated_weight (connected_scale (Some 10%float))
                       (device_world 0 [Line "ST,GS,+010.30kg"]) in
  r = Some 10.3%float /\ last_valid_weight s' = Some 10.3%float.
Proof. vm_compute. split; reflexivity. Qed.

Example reject_11_then_accept :
  let '(r, s', w') := get_validated_weight (connected_scale (Some 10%float))
                        (device_world 0 [Line "ST,GS,+011.00kg"; Line "ST,GS,+010.30kg";
                                         Line "ST,GS,+010.40kg"]) in
  r = Some 10.3%float /\ last_valid_weight s' = Some 10.3%float
  /\ device_q w' = [Line "ST,GS,+010.40kg"].
Proof. vm_compute. repeat split; reflexivity. Qed.

Example exhaust_out_of_band :
  let '(r, s', w') := get_validated_weight (connected_scale (Some 10%float))
                        (device_world 0 (repeat (Line "ST,GS,+011.00kg") 12)) in
  r = Some 10%float /\ last_valid_weight s' = Some 10%float
  /\ device_q w' = repeat (Line "ST,GS,+011.00kg") 2.
Proof. vm_compute. repeat split; reflexivity. Qed.

(** The comparison is the one of binary64: exactly half a kilogram
    away is accepted, and a baseline that is not finite accepts
    nothing. *)
Example threshold_is_inclusive : within_threshold 10.5%float 10%float = true.
Proof. reflexivity. Qed.

Example threshold_rejects_above : within_threshold 10.75%float 10%float = false.
Proof. reflexivity. Qed.

Example threshold_infinite_baseline : within_threshold infinity infinity = false.
Proof. reflexivity. Qed.

Lemma validated_read_threshold_witness :
  get_validated_weight (connected_scale (Some 10%float))
    (device_world 0 [Line "ST,GS,+011.00kg"; Line "ST,GS,+010.30kg"])
  = (Some 10.3%float, connected_scale (Some 10.3%float),
     snd (after_reads 2 (connected_scale (Some 10%float))
            (device_world 0 [Line "ST,GS,+011.00kg"; Line "ST,GS,+010.30kg"]))).
Proof.
  set (s := connected_scale (Some 10%float)).
  set (w := device_world 0 [Line "ST,GS,+011.00kg"; Line "ST,GS,+010.30kg"]).
  assert (Hlast : last_valid_weight s = Some 10%float) by reflexivity.
  assert (Hk : 1 < MAX_VALIDATION_RETRIES) by (unfold MAX_VALIDATION_RETRIES; lia).
  assert (Hrej : Forall (rejected 10%float) (raw_reads 1 s w))
    by (repeat constructor).
  assert (Hread : read_weight (fst (after_reads 1 s w)) (snd (after_reads 1 s w))
                  = (Some 10.3%float, s, snd (after_reads 2 s w)))
    by (vm_compute; reflexivity).
  destruct (validated_read_threshold s w 10%float 1 Hlast Hk Hrej _ _ _ Hread)
    as [_ H].
  change (within_threshold 10.3%float 10%float) with true in H.
  exact H.
Defined.

Lemma validated_read_fallback_witness :
  get_validated_weight (connected_scale (Some 10%float))
    (device_world 0 (repeat (Line "ST,GS,+011.00kg") 10))
  = (Some 10%float,
     fst (after_reads MAX_VALIDATION_RETRIES (connected_scale (Some 10%float))
            (device_world 0 (repeat (Line "ST,GS,+011.00kg") 10))),
     snd (after_reads MAX_VALIDATION_RETRIES (connected_scale (Some 10%float))
            (device_world 0 (repeat (Line "ST,GS,+011.00kg") 10))))
  /\ last_valid_weight
       (fst (after_reads MAX_VALIDATION_RETRIES (connected_scale (Some 10%float))
               (device_world 0 (repeat (Line "ST,GS,+011.00kg") 10))))
     = Some 10%float.
Proof.
  apply (validated_read_fallback (connected_scale (Some 10%float))
           (device_world 0 (repeat (Line "ST,GS,+011.00kg") 10)) 10%float).
  - reflexivity.
  - vm_compute. repeat constructor.
Defined.

Lemma first_read_accepted_witness :
  get_validated_weight (connected_scale None) (device_world 0 [Line "ST,GS,+1e300kg"])
  = (Some 1e300%float,
     set_last_valid_weight (connected_scale None) 1e300%float,
     snd (read_weight (connected_scale None) (device_world 0 [Line "ST,GS,+1e300kg"])))
  /\ last_valid_weight
       (snd (fst (get_validated_weight (connected_scale None)
                    (device_world 0 [Line "ST,GS,+1e300kg"]))))
     = Some 1e300%float.
Proof.
  apply (first_read_accepted (connected_scale None)
           (device_world 0 [Line "ST,GS,+1e300kg"]) 1e300%float).
  - reflexivity.
  - vm_compute. reflexivity.
Defined.

End Validation.
(* ================================================================== *)
(** * Properties of the upload sink *)
(* ================================================================== *)

Section Upload.

Lemma setup_firebase_loop_refs n outcomes ref_304 ref_303 :
  setup_firebase_loop n outcomes = Some (ref_304, ref_303) ->
  ref_304 = db_reference "weights/12644" /\ ref_303 = db_reference "weights/12644".
Proof.
  revert outcomes. induction n as [|n IH]; intros outcomes; simpl; [discriminate|].
  destruct (pop false outcomes) as [ok rest]. destruct ok.
  - intros E. inversion E. split; reflexivity.
  - apply IH.
Qed.

(** The first dictionary holds the first three slots, under the keys
    [weight1], [weight2] and [weight3]. *)
Lemma data_304_four t w1 w2 w3 w4 rest :
  data_304 t (w1 :: w2 :: w3 :: w4 :: rest)
  = <["weight3" := of_weight w3]>
      (<["weight2" := of_weight w2]>
         (<["weight1" := of_weight w1]> {["timestamp" := JTime t]})).
Proof. reflexivity. Qed.

Lemma push_ok r data fb q :
  push_q fb = true :: q ->
  push r data fb
  = (true, {| push_q := q;
              db := <[path r := children fb (path r) ++ [data]]> (db fb) |}).
Proof. intros H. unfold push. rewrite H. reflexivity. Qed.

(** C9. The two references [setup_firebase_with_retry] returns are
    made from the same path 'weights/12644'; so when a record with a
    fourth slot is uploaded, the record for the second destination is
    stored under the same node as the first, right after it. *)
Theorem upload_destinations_coincide
    (outcomes : list bool) (ref_304 ref_303 : Reference) :
  setup_firebase_with_retry outcomes = Some (ref_304, ref_303) ->
  path ref_304 = "weights/12644" /\ path ref_303 = "weights/12644"
  /\ forall t (ws : list (option float)) fb q,
       3 < length ws -> push_q fb = true :: true :: q ->
       exists w3,
         ws !! 2 = Some w3
         /\ db (upload_to_firebase ref_304 ref_303 t ws fb)
            = <["weights/12644" :=
                  children fb "weights/12644" ++ [data_304 t ws; data_303 t w3]]>
                (db fb).
Proof.
  intros Hsetup.
  destruct (setup_firebase_loop_refs _ _ _ _ Hsetup) as [-> ->].
  split; [reflexivity|]. split; [reflexivity|].
  intros t ws fb q Hlen Hq.
  destruct (ws !! 2) as [w3|] eqn:Hw3.
  2:{ apply lookup_ge_None in Hw3. lia. }
  exists w3. split; [reflexivity|].
  unfold upload_to_firebase. cbn [upload_loop]. unfold upload_attempt.
  rewrite (push_ok _ _ fb (true :: q) Hq).
  apply Nat.ltb_lt in Hlen. rewrite Hlen, Hw3.
  erewrite push_ok by reflexivity.
  cbn [db path db_reference]. unfold children at 1. cbn [db].
  rewrite lookup_insert_eq. cbn [default].
  unfold id. rewrite insert_insert_eq, <- app_assoc. reflexivity.
Qed.

Lemma upload_destinations_coincide_witness :
  path (db_reference "weights/12644") = "weights/12644"
  /\ exists w3,
       [Some 1%float; Some 2%float; Some 3%float; Some 4%float] !! 2 = Some w3
       /\ db (upload_to_firebase (db_reference "weights/12644")
                (db_reference "weights/12644") (at_time 738000 10 10 0)
                [Some 1%float; Some 2%float; Some 3%float; Some 4%float]
                {| push_q := [true; true]; db := ∅ |})
          = <["weights/12644" :=
                children {| push_q := [true; true]; db := ∅ |} "weights/12644"
                ++ [data_304 (at_time 738000 10 10 0)
                      [Some 1%float; Some 2%float; Some 3%float; Some 4%float];
                    data_303 (at_time 738000 10 10 0) w3]]> ∅.
Proof.
  destruct (upload_destinations_coincide [false; true]
              (db_reference "weights/12644") (db_reference "weights/12644") eq_refl)
    as (H1 & _ & H3).
  split; [exact H1|].
  apply (H3 (at_time 738000 10 10 0)
            [Some 1%float; Some 2%float; Some 3%float; Some 4%float]
            {| push_q := [true; true]; db := ∅ |} []).
  - simpl. lia.
  - reflexivity.
Defined.

(** C1, on the code.  For a record with four slots the first
    dictionary holds the first three slots; the second one holds, under
    [weight1], the value of the third slot ([weights[2]]), which the
    first dictionary holds already, and not the value of the fourth. *)
Theorem upload_second_record_holds_third_slot :
  let t := at_time 738000 10 10 0 in
  let ws := [Some 1%float; Some 2%float; Some 3%float; Some 4%float] in
  let fb := upload_to_firebase (db_reference "weights/12644")
              (db_reference "weights/12644") t ws
              {| push_q := [true; true]; db := ∅ |} in
  children fb "weights/12644" = [data_304 t ws; data_303 t (Some 3%float)]
  /\ data_304 t ws !! "weight1" = Some (JNum 1%float)
  /\ data_304 t ws !! "weight2" = Some (JNum 2%float)
  /\ data_304 t ws !! "weight3" = Some (JNum 3%float)
  /\ data_304 t ws !! "weight4" = None
  /\ data_303 t (Some 3%float) !! "weight1" = Some (JNum 3%float)
  /\ data_303 t (Some 3%float) !! "weight1" <> Some (JNum 4%float).
Proof.
  cbv zeta. split; [|split; [|split; [|split; [|split; [|split]]]]].
  - vm_compute. reflexivity.
  - vm_compute. reflexivity.
  - vm_compute. reflexivity.
  - vm_compute. reflexivity.
  - vm_compute. reflexivity.
  - vm_compute. reflexivity.
  - vm_compute. intros H. discriminate H.
Qed.

(** In general: the second dictionary is built from slot 3 whenever
    there are more than three slots, whatever slot 4 holds. *)
Lemma upload_second_record t w1 w2 w3 w4 rest fb q ref_304 ref_303 :
  push_q fb = true :: q ->
  upload_attempt ref_304 ref_303 t (w1 :: w2 :: w3 :: w4 :: rest) fb
  = push ref_303 (data_303 t w3)
      {| push_q := q;
         db := <[path ref_304 :=
                   children fb (path ref_304)
                   ++ [data_304 t (w1 :: w2 :: w3 :: w4 :: rest)]]> (db fb) |}.
Proof.
  intros Hq. unfold upload_attempt. rewrite (push_ok _ _ fb q Hq). reflexivity.
Qed.

(** With three slots or fewer nothing goes to the second destination. *)
Lemma upload_no_second_record t (ws : list (option float)) fb q ref_304 ref_303 :
  length ws <= 3 -> push_q fb = true :: q ->
  upload_to_firebase ref_304 ref_303 t ws fb
  = {| push_q := q;
       db := <[path ref_304 := children fb (path ref_304) ++ [data_304 t ws]]> (db fb) |}.
Proof.
  intros Hlen Hq. unfold upload_to_firebase. cbn [upload_loop]. unfold upload_attempt.
  rewrite (push_ok _ _ fb q Hq).
  replace (3 <? length ws)%nat with false by (symmetry; apply Nat.ltb_ge; lia).
  reflexivity.
Qed.

End Upload.
(* ================================================================== *)
(** * Properties of the poll orchestrator *)
(* ================================================================== *)

Section Orchestrator.

(** ** What a validated read leaves of a channel *)

Lemma try_block_port s w : port (snd (fst (try_block s w))) = port s.
Proof.
  unfold try_block.
  destruct (if needs_connect s then connect s w else (s, w)) as [s1 w1] eqn:E.
  assert (H : port s1 = port s).
  { destruct (needs_connect s).
    - pose proof (connect_loop_port MAX_RECONNECT_ATTEMPTS s w) as H.
      unfold connect in E. rewrite E in H. exact H.
    - inversion E; reflexivity. }
  destruct (serial s1) as [h|]; [|exact H].
  destruct (device_read (handle h) w1) as [[| |raw] w2]; try exact H.
  destruct (decode_line (PyStr.strip raw)); exact H.
Qed.

Lemma read_weight_loop_port n s w :
  port (snd (fst (read_weight_loop n s w))) = port s.
Proof.
  revert s w. induction n as [|n IH]; intros s w; simpl; [reflexivity|].
  pose proof (try_block_port s w) as Ht.
  destruct (try_block s w) as [[o s1] w1]; simpl in Ht.
  destruct o as [v| | |]; simpl; try (rewrite IH; exact Ht); [exact Ht|].
  pose proof (connect_loop_port MAX_RECONNECT_ATTEMPTS s1 w1) as Hc.
  unfold connect. destruct (connect_loop MAX_RECONNECT_ATTEMPTS s1 w1) as [s2 w2].
  rewrite IH. simpl in Hc. congruence.
Qed.

Lemma validation_loop_port n last s w :
  port (snd (fst (validation_loop n last s w))) = port s.
Proof.
  revert s w. induction n as [|n IH]; intros s w; simpl; [reflexivity|].
  pose proof (read_weight_loop_port READ_ATTEMPTS s w) as Hr.
  unfold read_weight. destruct (read_weight_loop READ_ATTEMPTS s w) as [[r s1] w1].
  simpl in Hr. destruct r as [v|]; [|rewrite IH; exact Hr].
  destruct (within_threshold v last); [exact Hr | rewrite IH; exact Hr].
Qed.

Lemma get_validated_weight_port s w :
  port (snd (fst (get_validated_weight s w))) = port s.
Proof.
  unfold get_validated_weight. destruct (last_valid_weight s) as [last|].
  - apply validation_loop_port.
  - pose proof (read_weight_loop_port READ_ATTEMPTS s w) as Hr.
    unfold read_weight. destruct (read_weight_loop READ_ATTEMPTS s w) as [[r s1] w1].
    destruct r; exact Hr.
Qed.

(** A validated read that returns nothing was made without a baseline. *)
Lemma get_validated_weight_none s w :
  fst (fst (get_validated_weight s w)) = None -> last_valid_weight s = None.
Proof.
  intros H. destruct (last_valid_weight s) as [last|] eqn:Hl; [|reflexivity].
  unfold get_validated_weight in H. rewrite Hl in H.
  destruct (validation_loop_some MAX_VALIDATION_RETRIES last s w Hl) as (v & Hv & _).
  congruence.
Qed.

(** ** One channel of a tick *)

(** C3, as the code has it.  When the validated read of a channel
    returns a value, the orchestrator puts it into the record and into
    its remembered values, and hands the channel on as the validated
    read left it: the [failed] flag is the one the channel controller
    set, the orchestrator does not clear it. *)
Theorem poll_scale_success (i : nat) (scale : Scale) (lw ws : list (option float))
    (w : World) (v : float) (scale1 : Scale) (w1 : World) :
  get_validated_weight scale w = (Some v, scale1, w1) ->
  i < length lw ->
  exists scale',
    poll_scale i scale lw ws w = Some (scale', <[i := Some v]> lw, ws ++ [Some v], w1)
    /\ (<[i := Some v]> lw) !! i = Some (Some v)
    /\ scale' = scale1
    /\ failed scale' = failed scale1.
Proof.
  intros Hg Hi. exists scale1. unfold poll_scale. rewrite Hg.
  replace (i <? length lw)%nat with true by (symmetry; apply Nat.ltb_lt; exact Hi).
  repeat split. apply list_lookup_insert_eq. exact Hi.
Qed.

Lemma poll_scale_success_witness :
  exists scale',
    poll_scale 0 (connected_scale None) [None] []
      (device_world 0 [Line "ST,GS,+012.34kg"])
    = Some (scale', <[0 := Some 12.34%float]> [None], [] ++ [Some 12.34%float],
            snd (get_validated_weight (connected_scale None)
                   (device_world 0 [Line "ST,GS,+012.34kg"])))
    /\ (<[0 := Some 12.34%float]> [None]) !! 0 = Some (Some 12.34%float)
    /\ scale' = connected_scale (Some 12.34%float)
    /\ failed scale' = failed (connected_scale (Some 12.34%float)).
Proof.
  apply (poll_scale_success 0 (connected_scale None) [None] []
           (device_world 0 [Line "ST,GS,+012.34kg"]) 12.34%float).
  - vm_compute. reflexivity.
  - simpl. lia.
Defined.

(** C3, as the claim words it, fails: a channel with a baseline whose
    device has gone returns its baseline from the validated read, with
    the [failed] flag raised by the reconnection that did not succeed;
    the orchestrator takes the value and leaves the flag raised. *)
Lemma poll_scale_leaves_failed :
  fst (fst (get_validated_weight (connected_scale (Some 10%float))
              (device_world 0 [ReadRaises]))) = Some 10%float
  /\ exists scale' w',
       poll_scale 0 (connected_scale (Some 10%float)) [Some 10%float] []
         (device_world 0 [ReadRaises])
       = Some (scale', [Some 10%float], [Some 10%float], w')
       /\ failed scale' = true.
Proof.
  split; [vm_compute; reflexivity|].
  eexists _, _. split; vm_compute; reflexivity.
Qed.

(** ** The whole loop over the channels *)

(** The remembered values are the baselines of the channels, slot by
    slot; [poll] keeps it so, never fails, and builds the record from
    the baselines it leaves.  A channel left without a baseline had
    none before and is marked failed. *)
Lemma poll_baselines todo :
  forall pre (ws : list (option float)) w,
  exists todo' w',
    poll (length pre) todo (last_valid_weight <$> (pre ++ todo)) ws w
    = Some (todo', last_valid_weight <$> (pre ++ todo'),
            ws ++ (last_valid_weight <$> todo'), w')
    /\ port <$> todo' = port <$> todo
    /\ Forall2 (fun a b =>
                  (last_valid_weight b = None ->
                   last_valid_weight a = None /\ failed b = true))
               todo todo'.
Proof.
  induction todo as [|a todo IH]; intros pre ws w.
  - exists [], w. simpl. rewrite !app_nil_r. repeat split. constructor.
  - cbn [poll]. unfold poll_scale.
    pose proof (get_validated_weight_baseline a w) as Hb.
    pose proof (get_validated_weight_port a w) as Hp.
    pose proof (get_validated_weight_none a w) as Hn.
    destruct (get_validated_weight a w) as [[r a1] w1]; simpl in Hb, Hp, Hn.
    destruct r as [v|].
    + (* the channel returned a value *)
      assert (Hlen : length pre < length (last_valid_weight <$> (pre ++ a :: todo))).
      { rewrite length_fmap, length_app. simpl. lia. }
      replace (length pre <? length (last_valid_weight <$> (pre ++ a :: todo)))%nat
        with true by (symmetry; apply Nat.ltb_lt; exact Hlen).
      assert (Hins : <[length pre := Some v]> (last_valid_weight <$> (pre ++ a :: todo))
                     = last_valid_weight <$> ((pre ++ [a1]) ++ todo)).
      { rewrite <- app_assoc. rewrite !fmap_app. simpl.
        rewrite insert_app_r_alt by (rewrite length_fmap; lia).
        rewrite length_fmap, Nat.sub_diag. simpl. rewrite Hb. reflexivity. }
      rewrite Hins.
      destruct (IH (pre ++ [a1]) (ws ++ [Some v]) w1) as (todo' & w' & He & Hpo & Hf).
      rewrite length_app in He. simpl in He.
      rewrite Nat.add_1_r in He. rewrite He.
      exists (a1 :: todo'), w'. split; [|split].
      * rewrite <- !app_assoc. simpl. rewrite Hb. reflexivity.
      * rewrite !fmap_cons, Hp, Hpo. reflexivity.
      * constructor; [|exact Hf]. rewrite Hb. discriminate.
    + (* the channel returned nothing *)
      specialize (Hn eq_refl).
      assert (Hlk : (last_valid_weight <$> (pre ++ a :: todo)) !! length pre
                    = Some None).
      { rewrite fmap_app. rewrite lookup_app_r by (rewrite length_fmap; lia).
        rewrite length_fmap, Nat.sub_diag. simpl. rewrite Hn. reflexivity. }
      rewrite Hlk.
      assert (Hsame : last_valid_weight <$> (pre ++ a :: todo)
                      = last_valid_weight <$> ((pre ++ [set_failed a1 true]) ++ todo)).
      { rewrite <- app_assoc. rewrite !fmap_app. simpl. rewrite Hn, Hb. reflexivity. }
      rewrite Hsame.
      destruct (IH (pre ++ [set_failed a1 true]) (ws ++ [None]) w1)
        as (todo' & w' & He & Hpo & Hf).
      rewrite length_app in He. simpl in He.
      rewrite Nat.add_1_r in He. rewrite He.
      exists (set_failed a1 true :: todo'), w'. split; [|split].
      * rewrite <- !app_assoc. simpl. rewrite Hb. reflexivity.
      * rewrite !fmap_cons. unfold set_failed at 1. cbn [port]. rewrite Hp, Hpo. reflexivity.
      * constructor; [|exact Hf]. intros _. split; [exact Hn | reflexivity].
Qed.

(** ** One tick *)

(** The state of [main] is coherent when the remembered values are the
    baselines of the channels. *)
Lemma tick_baselines ref_304 ref_303 st st2 r :
  last_weights st = last_valid_weight <$> scales st ->
  tick ref_304 ref_303 st = Some (st2, r) ->
  last_weights st2 = last_valid_weight <$> scales st2
  /\ weights r = last_valid_weight <$> scales st2
  /\ port <$> scales st2 = port <$> scales st
  /\ Forall2 (fun a b =>
                (last_valid_weight b = None ->
                 last_valid_weight a = None /\ failed b = true))
             (scales st) (scales st2)
  /\ (existsb failed (scales st2) = true -> reboots st2 = S (reboots st))
  /\ (reboot_q st = [] -> reboot_q st2 = []
      /\ (existsb failed (scales st2) = true -> running st2 = false)).
Proof.
  intros Hinv. unfold tick.
  destruct (running st); [|discriminate].
  destruct (pop epoch (clock_q st)) as [now q1].
  destruct (pop epoch q1) as [now' q2].
  destruct (get_next_slot now') as [next_time|]; [|discriminate].
  destruct (pop epoch q2) as [now'' q3].
  rewrite Hinv.
  destruct (poll_baselines (scales st) [] []
              (sleep (Z.max 0 (DateTime.diff next_time now)) (world st)))
    as (todo' & w' & He & Hp & Hf).
  simpl in He. rewrite He. simpl.
  destruct (existsb failed todo') eqn:Hex.
  - destruct (pop false (reboot_q st)) as [returns rq] eqn:Hpop.
    intros E. inversion E; subst; cbn [scales last_weights weights reboots reboot_q running].
    split; [reflexivity|]. split; [reflexivity|]. split; [exact Hp|].
    split; [exact Hf|]. split.
    + intros _. reflexivity.
    + intros Hq. rewrite Hq in Hpop. inversion Hpop.
      split; [reflexivity | intros _; reflexivity].
  - intros E. inversion E; subst; cbn [scales last_weights weights reboots reboot_q running].
    split; [reflexivity|]. split; [reflexivity|]. split; [exact Hp|].
    split; [exact Hf|]. split.
    + intros Hd. rewrite Hex in Hd. discriminate.
    + intros Hq. split; [exact Hq|]. intros Hd. rewrite Hex in Hd. discriminate.
Qed.

(** ** The start of [main] *)

Lemma Scale_init_fields p w :
  port (fst (Scale_init p w)) = p
  /\ last_valid_weight (fst (Scale_init p w)) = None.
Proof.
  unfold Scale_init, connect. split.
  - rewrite connect_loop_port. reflexivity.
  - rewrite connect_loop_last_valid_weight. reflexivity.
Qed.

Lemma make_scales_fields ports w :
  port <$> fst (make_scales ports w) = ports
  /\ last_valid_weight <$> fst (make_scales ports w)
     = replicate (length (fst (make_scales ports w))) None.
Proof.
  revert w. induction ports as [|p ports IH]; intros w; [split; reflexivity|].
  cbn [make_scales].
  destruct (Scale_init_fields p w) as [H1 H2].
  destruct (Scale_init p w) as [s w1]. cbn [fst] in H1, H2.
  destruct (IH w1) as [I1 I2].
  destruct (make_scales ports w1) as [ss w2]. cbn [fst] in *.
  rewrite !fmap_cons, H1, H2, I1, I2. split; reflexivity.
Qed.

Lemma main_init_coherent ports w fb c clock rq :
  last_weights (main_init ports w fb c clock rq)
  = last_valid_weight <$> scales (main_init ports w fb c clock rq)
  /\ port <$> scales (main_init ports w fb c clock rq) = ports
  /\ reboots (main_init ports w fb c clock rq) = 0
  /\ reboot_q (main_init ports w fb c clock rq) = rq.
Proof.
  unfold main_init. destruct (make_scales_fields ports w) as [H1 H2].
  destruct (make_scales ports w) as [ss w1]. simpl in *.
  rewrite H2. repeat split. exact H1.
Qed.

(** ** Runs *)

Lemma run_ticks ref_304 ref_303 n st st' recs :
  run ref_304 ref_303 n st = Some (st', recs) -> ticks ref_304 ref_303 st recs st'.
Proof.
  revert st' recs. induction n as [|n IH]; intros st' recs; simpl.
  - intros E. inversion E. constructor.
  - destruct (run ref_304 ref_303 n st) as [[st1 recs1]|]; [|discriminate].
    destruct (tick ref_304 ref_303 st1) as [[st2 r]|] eqn:Et; [|discriminate].
    intros E. inversion E; subst. econstructor; [apply IH; reflexivity | exact Et].
Qed.

Lemma run_state_records ref_304 ref_303 n st recs :
  snd <$> run ref_304 ref_303 n st = Some recs ->
  ticks ref_304 ref_303 st recs (state_after ref_304 ref_303 n st).
Proof.
  unfold state_after.
  destruct (run ref_304 ref_303 n st) as [[st' recs']|] eqn:E; simpl; [|discriminate].
  intros H. injection H as <-. eapply run_ticks. exact E.
Qed.

Lemma ticks_invariant ref_304 ref_303 ports w fb c clock rq recs st :
  ticks ref_304 ref_303 (main_init ports w fb c clock rq) recs st ->
  run_invariant ports st recs
  /\ (forall recs' r, recs = recs' ++ [r] ->
        weights r = last_valid_weight <$> scales st).
Proof.
  induction 1 as [|recs st1 st2 r Hticks IH Htick].
  - destruct (main_init_coherent ports w fb c clock rq) as (H1 & H2 & H3 & _).
    split.
    + unfold run_invariant. split; [exact H1|]. split; [exact H2|].
      split; [constructor|]. intros i _. split; [exact H3 | constructor].
    + intros recs' r E. destruct recs'; discriminate.
  - destruct IH as [(I1 & I2 & I3 & I4) _].
    destruct (tick_baselines _ _ _ _ _ I1 Htick) as (T1 & T2 & T3 & T4 & T5 & _).
    split.
    + split; [exact T1|]. split; [congruence|]. split.
      * apply Forall_app. split; [exact I3|]. constructor; [|constructor].
        rewrite T2, length_fmap, <- I2, <- T3, length_fmap. reflexivity.
      * intros i Hi.
        rewrite list_lookup_fmap in Hi.
        destruct (scales st2 !! i) as [b|] eqn:Eb; [|discriminate].
        simpl in Hi. injection Hi as Hb.
        destruct (Forall2_lookup_r _ _ _ _ _ T4 Eb) as (a & Ea & Hab).
        destruct (Hab Hb) as [Ha Hfb].
        assert (Hia : (last_valid_weight <$> scales st1) !! i = Some None)
          by (rewrite list_lookup_fmap, Ea; simpl; rewrite Ha; reflexivity).
        destruct (I4 i Hia) as [R1 R2].
        assert (Hex : existsb failed (scales st2) = true).
        { apply existsb_exists. exists b. split; [|exact Hfb].
          apply list_elem_of_In. eapply list_elem_of_lookup_2. exact Eb. }
        split.
        -- rewrite (T5 Hex), R1, length_app. simpl. lia.
        -- apply Forall_app. split; [exact R2|]. constructor; [|constructor].
           rewrite T2, list_lookup_fmap, Eb. simpl. rewrite Hb. reflexivity.
    + intros recs' r' E. apply app_inj_tail in E. destruct E as [_ <-]. exact T2.
Qed.

Lemma ticks_last ref_304 ref_303 ports w fb c clock recs r st :
  ticks ref_304 ref_303 (main_init ports w fb c clock []) (recs ++ [r]) st ->
  exists st1,
    ticks ref_304 ref_303 (main_init ports w fb c clock []) recs st1
    /\ tick ref_304 ref_303 st1 = Some (st, r).
Proof.
  intros Hticks.
  inversion Hticks as [E|recs0 st1 st2 r0 Hprev Htick E]; subst.
  - destruct recs; discriminate.
  - apply app_inj_tail in E. destruct E as [-> ->]. exists st1. split; assumption.
Qed.

(** C4, as the code has it.  For every tick of the main loop, the
    record handed to the sinks has one weight slot per configured
    channel, in configured order -- slot [i] is what channel [i], the
    one on port [i], has as its baseline after the tick -- and an empty
    slot occurs only for a channel that has produced no reading so far:
    every earlier record has that slot empty as well, and every tick so
    far has ended with a reboot request. *)
Theorem record_slots (ref_304 ref_303 : Reference) (ports : list string)
    (w : World) (fb : Firebase) (c : Csv) (clock : list datetime) (rq : list bool)
    (recs : list Record_) (r : Record_) (st : Main) :
  ticks ref_304 ref_303 (main_init ports w fb c clock rq) (recs ++ [r]) st ->
  length (weights r) = length ports
  /\ port <$> scales st = ports
  /\ weights r = last_valid_weight <$> scales st
  /\ forall i,
       weights r !! i = Some None ->
       reboots st = S (length recs)
       /\ Forall (fun r' => weights r' !! i = Some None) recs.
Proof.
  intros Hticks.
  destruct (ticks_invariant _ _ _ _ _ _ _ _ _ _ Hticks) as [(I1 & I2 & I3 & I4) Hlast].
  specialize (Hlast recs r eq_refl).
  split; [|split; [exact I2|split; [exact Hlast|]]].
  - apply Forall_app in I3. destruct I3 as [_ I3]. inversion I3; assumption.
  - intros i Hi. rewrite Hlast in Hi.
    destruct (I4 i Hi) as [R1 R2]. split.
    + rewrite R1, length_app. simpl. lia.
    + apply Forall_app in R2. destruct R2 as [R2 _]. exact R2.
Qed.

Lemma record_slots_witness :
  exists st,
    length (weights {| timestamp := at_time 738000 10 20 0; weights := [None] |})
    = length SCALE_PORTS
    /\ port <$> scales st = SCALE_PORTS
    /\ weights {| timestamp := at_time 738000 10 20 0; weights := [None] |}
       = last_valid_weight <$> scales st
    /\ forall i,
         weights {| timestamp := at_time 738000 10 20 0; weights := [None] |} !! i
         = Some None ->
         reboots st
         = S (length [{| timestamp := at_time 738000 10 10 0; weights := [None] |}])
         /\ Forall (fun r' => weights r' !! i = Some None)
              [{| timestamp := at_time 738000 10 10 0; weights := [None] |}].
Proof.
  exists (state_after node node 2
            (main_init SCALE_PORTS
              {| path_exists_q := []; serial_open_q := []; device_q := [];
                 next_handle := 0; trace := [] |}
              {| push_q := repeat true 4; db := ∅ |}
              {| csv_open_q := repeat true 2; csv_rows := None |}
              two_ticks_clock [true; true])).
  apply (record_slots node node SCALE_PORTS
           {| path_exists_q := []; serial_open_q := []; device_q := [];
              next_handle := 0; trace := [] |}
           {| push_q := repeat true 4; db := ∅ |}
           {| csv_open_q := repeat true 2; csv_rows := None |}
           two_ticks_clock [true; true]
           [{| timestamp := at_time 738000 10 10 0; weights := [None] |}]
           {| timestamp := at_time 738000 10 20 0; weights := [None] |}).
  apply (run_state_records node node 2
           (main_init SCALE_PORTS
              {| path_exists_q := []; serial_open_q := []; device_q := [];
                 next_handle := 0; trace := [] |}
              {| push_q := repeat true 4; db := ∅ |}
              {| csv_open_q := repeat true 2; csv_rows := None |}
              two_ticks_clock [true; true])
           ([{| timestamp := at_time 738000 10 10 0; weights := [None] |}]
            ++ [{| timestamp := at_time 738000 10 20 0; weights := [None] |}])).
  vm_compute. reflexivity.
Defined.

(** C4, as the claim words it, fails: with a device that never shows
    up and a reboot command that returns without effect, the loop goes
    on, and the record of the second tick has an empty slot too. *)
Lemma empty_slot_on_second_tick :
  exists st r1 r2,
    run node node 2 absent_device = Some (st, [r1; r2])
    /\ weights r1 = [None] /\ weights r2 = [None]
    /\ timestamp r2 = at_time 738000 10 20 0
    /\ reboots st = 2 /\ running st = true.
Proof.
  eexists _, _, _. vm_compute. repeat split; reflexivity.
Qed.

(** The unplugged device, from the start of [main]: the first tick
    records 10.0; on the second the validated read falls back on it,
    the record holds 10.0 again, and the channel ends the tick marked
    failed. *)
Example unplugged_device_run :
  exists st r1 r2,
    run node node 2 unplugged_device = Some (st, [r1; r2])
    /\ weights r1 = [Some 10%float] /\ weights r2 = [Some 10%float]
    /\ failed <$> scales st = [true] /\ reboots st = 1.
Proof.
  eexists _, _, _. vm_compute. repeat split; reflexivity.
Qed.

(** ** When the reboot takes effect *)

Lemma ticks_reboot_effective ref_304 ref_303 ports w fb c clock recs st :
  ticks ref_304 ref_303 (main_init ports w fb c clock []) recs st ->
  reboot_q st = []
  /\ (forall i, recs <> [] ->
        (last_valid_weight <$> scales st) !! i = Some None -> running st = false).
Proof.
  intros Hticks. remember (main_init ports w fb c clock []) as st0 eqn:E0.
  induction Hticks as [|recs st1 st2 r Hticks IH Htick].
  - subst. split; [apply main_init_coherent | intros i H; contradiction].
  - destruct IH as [Q1 _].
    assert (Hinv : run_invariant ports st1 recs)
      by (subst; eapply ticks_invariant; exact Hticks).
    destruct Hinv as (I1 & _).
    destruct (tick_baselines _ _ _ _ _ I1 Htick) as (_ & _ & _ & T4 & _ & T6).
    destruct (T6 Q1) as [Q2 R2]. split; [exact Q2|].
    intros i _ Hi. apply R2.
    rewrite list_lookup_fmap in Hi.
    destruct (scales st2 !! i) as [b|] eqn:Eb; [|discriminate].
    simpl in Hi. injection Hi as Hb.
    destruct (Forall2_lookup_r _ _ _ _ _ T4 Eb) as (a & Ea & Hab).
    destruct (Hab Hb) as [_ Hfb].
    apply existsb_exists. exists b. split; [|exact Hfb].
    apply list_elem_of_In. eapply list_elem_of_lookup_2. exact Eb.
Qed.

(** When every reboot request ends the process (the queue of returning
    calls is empty), an empty slot occurs in the first record only. *)
Lemma empty_slot_first_tick_only ref_304 ref_303 ports w fb c clock recs r st i :
  ticks ref_304 ref_303 (main_init ports w fb c clock []) (recs ++ [r]) st ->
  weights r !! i = Some None ->
  recs = [].
Proof.
  intros Hticks Hi.
  destruct (ticks_last ref_304 ref_303 ports w fb c clock recs r st Hticks)
    as (st1 & Hprev & Htick).
  destruct recs as [|r0 recs]; [reflexivity|]. exfalso.
  destruct (ticks_invariant _ _ _ _ _ _ _ _ _ _ Hprev) as [(I1 & _) _].
  destruct (tick_baselines _ _ _ _ _ I1 Htick) as (_ & T2 & _ & T4 & _).
  destruct (ticks_reboot_effective _ _ _ _ _ _ _ _ _ Hprev) as [_ Hrun].
  rewrite T2, list_lookup_fmap in Hi.
  destruct (scales st !! i) as [b|] eqn:Eb; [|discriminate].
  simpl in Hi. injection Hi as Hb.
  destruct (Forall2_lookup_r _ _ _ _ _ T4 Eb) as (a & Ea & Hab).
  destruct (Hab Hb) as [Ha _].
  assert (Hoff : running st1 = false).
  { apply (Hrun i); [discriminate|].
    rewrite list_lookup_fmap, Ea. simpl. rewrite Ha. reflexivity. }
  unfold tick in Htick. rewrite Hoff in Htick. discriminate.
Qed.

End Orchestrator.
(* ================================================================== *)
(** * Further properties: the channel controller *)
(* ================================================================== *)

Section Controller.

Local Open Scope Z_scope.

Lemma slept_app a b : slept (a ++ b) = slept a + slept b.
Proof.
  induction a as [|e a IH]; simpl; [reflexivity|].
  destruct e; rewrite IH; lia.
Qed.

Lemma connect_loop_outcome n s w :
  port (fst (connect_loop n s w)) = port s
  /\ last_valid_weight (fst (connect_loop n s w)) = last_valid_weight s
  /\ ((serial (fst (connect_loop n s w))
       = Some {| handle := next_handle w; is_open := true |}
       /\ failed (fst (connect_loop n s w)) = false
       /\ next_handle (snd (connect_loop n s w)) = S (next_handle w))
      \/ (serial (fst (connect_loop n s w)) = None
          /\ failed (fst (connect_loop n s w)) = true
          /\ next_handle (snd (connect_loop n s w)) = next_handle w)).
Proof.
  revert w. induction n as [|n IH]; intros w.
  - simpl. repeat split. right. repeat split.
  - cbn [connect_loop]. unfold os_path_exists.
    destruct (pop false (path_exists_q w)) as [found q]. destruct found.
    + unfold serial_Serial. cbn [serial_open_q emit next_handle].
      destruct (pop false (serial_open_q w)) as [ok q']. destruct ok.
      * cbn. repeat split. left. repeat split.
      * match goal with |- context [connect_loop n s ?w0] => specialize (IH w0) end.
        cbn [next_handle sleep emit] in IH. exact IH.
    + match goal with |- context [connect_loop n s ?w0] => specialize (IH w0) end.
      cbn [next_handle sleep emit] in IH. exact IH.
Qed.

(** X1. After [connect] the [failed] flag agrees with the connection:
    either the channel holds a freshly allocated open handle and is not
    failed, or it holds no handle and is failed; the port and the
    baseline are untouched. *)
Theorem connect_outcome (s : Scale) (w : World) :
  port (fst (connect s w)) = port s
  /\ last_valid_weight (fst (connect s w)) = last_valid_weight s
  /\ ((serial (fst (connect s w)) = Some {| handle := next_handle w; is_open := true |}
       /\ failed (fst (connect s w)) = false
       /\ next_handle (snd (connect s w)) = S (next_handle w))
      \/ (serial (fst (connect s w)) = None
          /\ failed (fst (connect s w)) = true
          /\ next_handle (snd (connect s w)) = next_handle w)).
Proof. apply connect_loop_outcome. Qed.

Lemma connect_loop_slept n s w :
  exists k : nat,
    (k <= n)%nat
    /\ slept (trace (snd (connect_loop n s w)))
       = slept (trace w) + Z.of_nat k * RECONNECT_DELAY
    /\ (failed (fst (connect_loop n s w)) = true -> k = n)
    /\ (failed (fst (connect_loop n s w)) = false -> (k < n)%nat).
Proof.
  revert w. induction n as [|n IH]; intros w.
  - exists 0%nat. simpl. repeat split; try lia; try discriminate.
  - cbn [connect_loop]. unfold os_path_exists.
    destruct (pop false (path_exists_q w)) as [found q]. destruct found.
    + unfold serial_Serial. cbn [serial_open_q emit next_handle].
      destruct (pop false (serial_open_q w)) as [ok q']. destruct ok.
      * exists 0%nat. cbn. rewrite !slept_app. simpl.
        repeat split; try lia; try discriminate.
      * match goal with |- context [connect_loop n s ?w0] =>
          destruct (IH w0) as (k & Hk & Hs & Hf & Ht) end.
        exists (S k). rewrite Hs. cbn [trace sleep emit]. rewrite !slept_app. simpl.
        repeat split; try lia.
        -- intros H. rewrite (Hf H). reflexivity.
        -- intros H. specialize (Ht H). lia.
    + match goal with |- context [connect_loop n s ?w0] =>
        destruct (IH w0) as (k & Hk & Hs & Hf & Ht) end.
      exists (S k). rewrite Hs. cbn [trace sleep emit]. rewrite !slept_app. simpl.
      repeat split; try lia.
      * intros H. rewrite (Hf H). reflexivity.
      * intros H. specialize (Ht H). lia.
Qed.

(** X2. [connect] sleeps [RECONNECT_DELAY] once per attempt that did
    not connect and not at all otherwise: a connect that gives up has
    slept exactly five delays (25 s), one that succeeds at most four. *)
Theorem connect_sleeps (s : Scale) (w : World) :
  exists k : nat,
    slept (trace (snd (connect s w)))
    = slept (trace w) + Z.of_nat k * RECONNECT_DELAY
    /\ if failed (fst (connect s w))
       then k = MAX_RECONNECT_ATTEMPTS
       else (k < MAX_RECONNECT_ATTEMPTS)%nat.
Proof.
  destruct (connect_loop_slept MAX_RECONNECT_ATTEMPTS s w) as (k & _ & Hs & Hf & Ht).
  exists k. split; [exact Hs|]. unfold connect.
  destruct (failed (fst (connect_loop MAX_RECONNECT_ATTEMPTS s w)));
    [apply Hf | apply Ht]; reflexivity.
Qed.

Lemma connect_loop_missing n s w :
  Forall (eq false) (take n (path_exists_q w)) ->
  serial_open_q (snd (connect_loop n s w)) = serial_open_q w
  /\ next_handle (snd (connect_loop n s w)) = next_handle w
  /\ serial (fst (connect_loop n s w)) = None
  /\ failed (fst (connect_loop n s w)) = true
  /\ path_exists_q (snd (connect_loop n s w)) = drop n (path_exists_q w).
Proof.
  revert w. induction n as [|n IH]; intros w Hq.
  - simpl. repeat split.
  - cbn [connect_loop]. unfold os_path_exists.
    destruct (path_exists_q w) as [|x q] eqn:Eq; cbn [pop].
    + match goal with |- context [connect_loop n s ?w0] =>
        destruct (IH w0) as (H1 & H2 & H3 & H4 & H5) end.
      { cbn. rewrite take_nil. constructor. }
      cbn [serial_open_q next_handle path_exists_q sleep emit] in *.
      rewrite H5, drop_nil. repeat split; assumption.
    + cbn [take] in Hq. inversion Hq as [|y l Hy Hl]; subst.
      match goal with |- context [connect_loop n s ?w0] =>
        destruct (IH w0) as (H1 & H2 & H3 & H4 & H5) end.
      { cbn. exact Hl. }
      cbn [serial_open_q next_handle path_exists_q sleep emit drop] in *.
      repeat split; assumption.
Qed.

(** X3. While the device path does not exist, [connect] never calls
    the serial constructor: the queue of open outcomes and the handle
    counter are as before, five probes of the path have been consumed,
    and the channel is marked failed with no handle. *)
Theorem connect_missing_path (s : Scale) (w : World) :
  Forall (eq false) (take MAX_RECONNECT_ATTEMPTS (path_exists_q w)) ->
  serial_open_q (snd (connect s w)) = serial_open_q w
  /\ next_handle (snd (connect s w)) = next_handle w
  /\ serial (fst (connect s w)) = None
  /\ failed (fst (connect s w)) = true
  /\ path_exists_q (snd (connect s w)) = drop MAX_RECONNECT_ATTEMPTS (path_exists_q w).
Proof. apply connect_loop_missing. Qed.

Lemma connect_missing_path_witness :
  serial_open_q (snd (connect (connected_scale None)
                        {| path_exists_q := repeat false 6; serial_open_q := [true];
                           device_q := []; next_handle := 1; trace := [] |}))
  = [true]
  /\ next_handle (snd (connect (connected_scale None)
                         {| path_exists_q := repeat false 6; serial_open_q := [true];
                            device_q := []; next_handle := 1; trace := [] |}))
     = 1%nat
  /\ serial (fst (connect (connected_scale None)
                    {| path_exists_q := repeat false 6; serial_open_q := [true];
                       device_q := []; next_handle := 1; trace := [] |}))
     = None
  /\ failed (fst (connect (connected_scale None)
                    {| path_exists_q := repeat false 6; serial_open_q := [true];
                       device_q := []; next_handle := 1; trace := [] |}))
     = true
  /\ path_exists_q (snd (connect (connected_scale None)
                           {| path_exists_q := repeat false 6; serial_open_q := [true];
                              device_q := []; next_handle := 1; trace := [] |}))
     = drop MAX_RECONNECT_ATTEMPTS (repeat false 6).
Proof.
  apply (connect_missing_path (connected_scale None)
           {| path_exists_q := repeat false 6; serial_open_q := [true];
              device_q := []; next_handle := 1; trace := [] |}).
  simpl. repeat constructor.
Defined.

End Controller.
(* ================================================================== *)
(** * Further properties: raw and validated reads *)
(* ================================================================== *)

Section Reads.

Lemma try_block_return s w v s1 w1 :
  try_block s w = (Return v, s1, w1) ->
  exists h, serial s1 = Some h /\ is_open h = true.
Proof.
  unfold try_block. destruct (needs_connect s) eqn:En.
  - destruct (connect_loop_outcome MAX_RECONNECT_ATTEMPTS s w : _ /\ _ /\
      ((serial (fst (connect s w)) = _ /\ _) \/ (serial (fst (connect s w)) = _ /\ _)))
      as (_ & _ & [(Hs & _) | (Hs & _)]);
      destruct (connect s w) as [s' w']; cbn [fst snd] in Hs; rewrite Hs.
    + destruct (device_read _ w') as [[| |raw] w2]; try discriminate.
      destruct (decode_line (PyStr.strip raw)); try discriminate.
      intros E. inversion E; subst. eexists. split; [exact Hs | reflexivity].
    + discriminate.
  - unfold needs_connect in En. destruct (serial s) as [h|] eqn:Es; [|discriminate].
    destruct (device_read _ w) as [[| |raw] w2]; try discriminate.
    destruct (decode_line (PyStr.strip raw)); try discriminate.
    intros E. inversion E; subst. exists h. split; [exact Es|].
    destruct (is_open h); [reflexivity | discriminate].
Qed.

Lemma read_weight_loop_connected n s w v s' w' :
  read_weight_loop n s w = (Some v, s', w') ->
  exists h, serial s' = Some h /\ is_open h = true.
Proof.
  revert s w. induction n as [|n IH]; intros s w; cbn [read_weight_loop]; [discriminate|].
  destruct (try_block s w) as [[o s1] w1] eqn:Et. destruct o as [x| | |].
  - intros E. inversion E; subst. eapply try_block_return. exact Et.
  - destruct (connect s1 w1) as [s2 w2]. apply IH.
  - apply IH.
  - apply IH.
Qed.

(** X4. A raw read that returns a weight leaves the channel with an
    open connection: a weight is never produced without a handle. *)
Theorem read_weight_connected (s : Scale) (w : World) (v : float)
    (s' : Scale) (w' : World) :
  read_weight s w = (Some v, s', w') ->
  exists h, serial s' = Some h /\ is_open h = true.
Proof. apply read_weight_loop_connected. Qed.

Lemma read_weight_connected_witness :
  exists h,
    serial (fst (connect (connected_scale None) (device_world 1 []))) = Some h
    /\ is_open h = true.
Proof.
  apply (read_weight_connected
           {| port := "/dev/ttyUSB0"; serial := None; failed := true;
              last_valid_weight := None |}
           (device_world 1 [Line "ST,GS,+012.34kg"]) 12.34%float
           (fst (connect (connected_scale None) (device_world 1 [])))
           (snd (read_weight
                   {| port := "/dev/ttyUSB0"; serial := None; failed := true;
                      last_valid_weight := None |}
                   (device_world 1 [Line "ST,GS,+012.34kg"])))).
  vm_compute. reflexivity.
Defined.

(** ** How many replies a read consumes *)

Lemma pop_drop {A} (d : A) q : snd (pop d q) = drop 1 q.
Proof. destruct q; reflexivity. Qed.

Lemma try_block_consumes s w :
  exists k, k <= 1 /\ device_q (snd (try_block s w)) = drop k (device_q w).
Proof.
  pose proof (try_block_cases s w) as H.
  destruct (try_block s w) as [[o s1] w1]. cbn [snd].
  destruct o as [v| | |].
  1, 2, 4: exists 1; split; [lia|]; destruct H as [H _]; rewrite H; apply pop_drop.
  exists 0. split; [lia|]. rewrite H. reflexivity.
Qed.

Lemma read_weight_loop_consumes n s w :
  exists k, k <= n /\ device_q (snd (read_weight_loop n s w)) = drop k (device_q w).
Proof.
  revert s w. induction n as [|n IH]; intros s w; cbn [read_weight_loop].
  - exists 0. split; [lia | reflexivity].
  - destruct (try_block_consumes s w) as (k1 & Hk1 & H1).
    destruct (try_block s w) as [[o s1] w1]. cbn [snd] in H1.
    destruct o as [x| | |].
    + exists k1. split; [lia | exact H1].
    + pose proof (connect_device_q s1 w1) as Hc.
      destruct (connect s1 w1) as [s2 w2]. cbn [snd] in Hc.
      destruct (IH s2 (sleep READ_DELAY w2)) as (k & Hk & H).
      exists (k1 + k). split; [lia|].
      rewrite H. cbn [device_q sleep emit]. rewrite Hc, H1. apply drop_drop.
    + destruct (IH s1 w1) as (k & Hk & H).
      exists (k1 + k). split; [lia|]. rewrite H, H1. apply drop_drop.
    + destruct (IH s1 (sleep READ_DELAY w1)) as (k & Hk & H).
      exists (k1 + k). split; [lia|].
      rewrite H. cbn [device_q sleep emit]. rewrite H1. apply drop_drop.
Qed.

(** X5. A raw read consumes at most [READ_ATTEMPTS] (five) replies of
    the device, from the front of the queue: what it leaves is the
    queue without its first [k <= 5] replies. *)
Theorem read_weight_consumes (s : Scale) (w : World) :
  exists k,
    k <= READ_ATTEMPTS
    /\ device_q (snd (read_weight s w)) = drop k (device_q w).
Proof. apply read_weight_loop_consumes. Qed.

Lemma validation_loop_consumes n last s w :
  exists k,
    k <= n * READ_ATTEMPTS
    /\ device_q (snd (validation_loop n last s w)) = drop k (device_q w).
Proof.
  revert s w. induction n as [|n IH]; intros s w; cbn [validation_loop].
  - exists 0. split; [lia | reflexivity].
  - destruct (read_weight_loop_consumes READ_ATTEMPTS s w : exists k, _ /\
                device_q (snd (read_weight s w)) = _) as (k1 & Hk1 & H1).
    destruct (read_weight s w) as [[r s1] w1]. cbn [snd] in H1.
    assert (Hrec : exists k, k <= S n * READ_ATTEMPTS
                             /\ device_q (snd (validation_loop n last s1 w1))
                                = drop k (device_q w)).
    { destruct (IH s1 w1) as (k & Hk & H). exists (k1 + k). split; [lia|].
      rewrite H, H1. apply drop_drop. }
    destruct r as [v|]; [|exact Hrec].
    destruct (within_threshold v last); [|exact Hrec].
    exists k1. split; [lia | exact H1].
Qed.

(** X6. A validated read consumes at most ten times five replies of
    the device. *)
Theorem get_validated_weight_consumes (s : Scale) (w : World) :
  exists k,
    k <= MAX_VALIDATION_RETRIES * READ_ATTEMPTS
    /\ device_q (snd (get_validated_weight s w)) = drop k (device_q w).
Proof.
  unfold get_validated_weight. destruct (last_valid_weight s) as [last|].
  - apply validation_loop_consumes.
  - destruct (read_weight_loop_consumes READ_ATTEMPTS s w : exists k, _ /\
                device_q (snd (read_weight s w)) = _) as (k & Hk & H).
    exists k. split; [unfold MAX_VALIDATION_RETRIES; lia|].
    destruct (read_weight s w) as [[r s1] w1]. destruct r; exact H.
Qed.

(** ** Lines without a weight are skipped *)

Lemma try_block_line s w h raw q :
  serial s = Some h -> is_open h = true -> device_q w = Line raw :: q ->
  try_block s w
  = (match decode_line (PyStr.strip raw) with
     | Weight v => Return v
     | ValueError => Raise
     | NoUnit => Next
     end, s,
     emit (EvReadline (handle h))
       (emit (EvReset (handle h))
          {| path_exists_q := path_exists_q w; serial_open_q := serial_open_q w;
             device_q := q; next_handle := next_handle w; trace := trace w |})).
Proof.
  intros Hs Ho Hq. unfold try_block, needs_connect. rewrite Hs, Ho. cbn [negb].
  rewrite Hs. unfold device_read. rewrite Hq. cbn [pop].
  destruct (decode_line (PyStr.strip raw)); reflexivity.
Qed.

Lemma read_weight_loop_skips noise :
  forall n s w h raw q v,
    serial s = Some h -> is_open h = true ->
    device_q w = (Line <$> noise) ++ Line raw :: q ->
    Forall (fun l => decode_line (PyStr.strip l) = NoUnit) noise ->
    length noise < n ->
    decode_line (PyStr.strip raw) = Weight v ->
    exists w',
      read_weight_loop n s w = (Some v, s, w')
      /\ device_q w' = q
      /\ next_handle w' = next_handle w
      /\ slept (trace w')
         = (slept (trace w) + Z.of_nat (length noise) * READ_DELAY)%Z.
Proof.
  induction noise as [|l noise IH]; intros n s w h raw q v Hs Ho Hq Hn Hlen Hd.
  - destruct n as [|n]; [simpl in Hlen; lia|]. cbn [read_weight_loop].
    rewrite (try_block_line s w h raw q Hs Ho Hq), Hd.
    eexists. split; [reflexivity|]. cbn. rewrite !slept_app. simpl.
    repeat split. lia.
  - destruct n as [|n]; [simpl in Hlen; lia|]. cbn [read_weight_loop].
    inversion Hn as [|x xs Hl Hrest]; subst.
    rewrite (try_block_line s w h l _ Hs Ho Hq), Hl.
    match goal with |- context [read_weight_loop n s ?w0] =>
      destruct (IH n s w0 h raw q v Hs Ho eq_refl Hrest ltac:(simpl in Hlen; lia) Hd)
        as (w' & Hr & H1 & H2 & H3) end.
    exists w'. split; [exact Hr|]. split; [exact H1|]. split; [exact H2|].
    rewrite H3. cbn [trace sleep emit]. rewrite !slept_app.
    cbn [slept length]. lia.
Qed.

(** X7. On an open connection, lines without the unit marker are
    skipped: when fewer than five of them come before a line that
    decodes to a weight, the raw read returns that weight, having
    consumed exactly these lines, slept one [READ_DELAY] per skipped
    line, and opened no new connection. *)
Theorem read_weight_skips_noise (s : Scale) (w : World) (h : Serial)
    (noise : list string) (raw : string) (q : list DeviceReply) (v : float) :
  serial s = Some h -> is_open h = true ->
  device_q w = (Line <$> noise) ++ Line raw :: q ->
  Forall (fun l => decode_line (PyStr.strip l) = NoUnit) noise ->
  length noise < READ_ATTEMPTS ->
  decode_line (PyStr.strip raw) = Weight v ->
  exists w',
    read_weight s w = (Some v, s, w')
    /\ device_q w' = q
    /\ next_handle w' = next_handle w
    /\ slept (trace w') = (slept (trace w) + Z.of_nat (length noise) * READ_DELAY)%Z.
Proof. intros. eapply read_weight_loop_skips; eassumption. Qed.

Lemma read_weight_skips_noise_witness :
  exists w',
    read_weight (connected_scale None)
      (device_world 0 [Line ""; Line "ST,GS"; Line "ST,GS,+012.34kg"; Line "x"])
    = (Some 12.34%float, connected_scale None, w')
    /\ device_q w' = [Line "x"]
    /\ next_handle w'
       = next_handle (device_world 0 [Line ""; Line "ST,GS"; Line "ST,GS,+012.34kg";
                                      Line "x"])
    /\ slept (trace w')
       = (slept (trace (device_world 0 [Line ""; Line "ST,GS";
                                        Line "ST,GS,+012.34kg"; Line "x"]))
          + Z.of_nat (length [""; "ST,GS"]) * READ_DELAY)%Z.
Proof.
  apply (read_weight_skips_noise (connected_scale None)
           (device_world 0 [Line ""; Line "ST,GS"; Line "ST,GS,+012.34kg"; Line "x"])
           {| handle := 0; is_open := true |} [""; "ST,GS"] "ST,GS,+012.34kg"
           [Line "x"] 12.34%float).
  - reflexivity.
  - reflexivity.
  - reflexivity.
  - repeat constructor.
  - unfold READ_ATTEMPTS. simpl. lia.
  - vm_compute. reflexivity.
Defined.

(** ** The value of a validated read *)

Lemma validation_loop_drift n last s w :
  last_valid_weight s = Some last ->
  exists v,
    fst (fst (validation_loop n last s w)) = Some v
    /\ (within_threshold v last = true \/ v = last)
    /\ last_valid_weight (snd (fst (validation_loop n last s w))) = Some v.
Proof.
  revert s w. induction n as [|n IH]; intros s w Hlast; cbn [validation_loop].
  - exists last. cbn. repeat split; try assumption. right. reflexivity.
  - destruct (read_weight s w) as [[r s1] w1] eqn:E.
    pose proof (read_weight_last_valid_weight _ _ _ _ _ E) as H1.
    rewrite Hlast in H1.
    destruct r as [v|]; [|apply IH; exact H1].
    destruct (within_threshold v last) eqn:Ew; [|apply IH; exact H1].
    exists v. cbn. repeat split. left. exact Ew.
Qed.

(** X8. With a baseline, a validated read always returns a value, and
    that value is within the threshold of the baseline or is the
    baseline itself: one call never moves the reported weight by more
    than 0.5 kg; the value returned is the new baseline. *)
Theorem validated_read_drift (s : Scale) (w : World) (last : float) :
  last_valid_weight s = Some last ->
  exists v,
    fst (fst (get_validated_weight s w)) = Some v
    /\ (within_threshold v last = true \/ v = last)
    /\ last_valid_weight (snd (fst (get_validated_weight s w))) = Some v.
Proof.
  intros Hlast. unfold get_validated_weight. rewrite Hlast.
  apply validation_loop_drift. exact Hlast.
Qed.

Lemma validated_read_drift_witness :
  exists v,
    fst (fst (get_validated_weight (connected_scale (Some 10%float))
                (device_world 0 [Line "ST,GS,+011.00kg"; Line "ST,GS,+010.30kg"])))
    = Some v
    /\ (within_threshold v 10%float = true \/ v = 10%float)
    /\ last_valid_weight
         (snd (fst (get_validated_weight (connected_scale (Some 10%float))
                      (device_world 0 [Line "ST,GS,+011.00kg";
                                       Line "ST,GS,+010.30kg"]))))
       = Some v.
Proof.
  apply (validated_read_drift (connected_scale (Some 10%float))
           (device_world 0 [Line "ST,GS,+011.00kg"; Line "ST,GS,+010.30kg"])
           10%float).
  reflexivity.
Defined.

(** X9. Whatever the channel and the environment, the value a
    validated read returns is the baseline it leaves in the channel;
    it returns nothing only to a channel that had no baseline, and it
    never changes the port. *)
Theorem validated_read_result_is_baseline (s : Scale) (w : World) :
  last_valid_weight (snd (fst (get_validated_weight s w)))
  = fst (fst (get_validated_weight s w))
  /\ (fst (fst (get_validated_weight s w)) = None -> last_valid_weight s = None)
  /\ port (snd (fst (get_validated_weight s w))) = port s.
Proof.
  split; [apply get_validated_weight_baseline|].
  split; [apply get_validated_weight_none | apply get_validated_weight_port].
Qed.

End Reads.
(* ================================================================== *)
(** * Further properties: shutdown and the sinks *)
(* ================================================================== *)

Section Sinks.

(** ** Closing *)

Lemma close_fields s :
  needs_connect (close s) = true
  /\ port (close s) = port s
  /\ failed (close s) = failed s
  /\ last_valid_weight (close s) = last_valid_weight s
  /\ close (close s) = close s.
Proof.
  unfold close, needs_connect.
  destruct (serial s) as [h|] eqn:Es.
  - destruct (is_open h) eqn:Eo; cbn.
    + repeat split.
    + rewrite Es, Eo. cbn. repeat split.
  - rewrite Es. repeat split.
Qed.

(** X10. A read after [close] reconnects first: when the device path
    exists and the port opens, the raw read of a closed channel opens
    a new handle and returns the weight read through it; the old
    handle is not read again. *)
Theorem read_after_close_reconnects (s : Scale) (w : World) (h : Serial)
    (raw : string) (q : list DeviceReply) (ex op : list bool) (v : float) :
  serial s = Some h ->
  path_exists_q w = true :: ex -> serial_open_q w = true :: op ->
  device_q w = Line raw :: q ->
  decode_line (PyStr.strip raw) = Weight v ->
  exists w',
    read_weight (close s) w
    = (Some v,
       set_serial s (Some {| handle := next_handle w; is_open := true |}) false, w')
    /\ trace w' = trace w ++ [EvExists (port s) true;
                              EvOpen (port s) (Some (next_handle w));
                              EvReset (next_handle w); EvReadline (next_handle w)].
Proof.
  intros Hs Hex Hop Hq Hd.
  destruct (close_fields s) as (Hn & Hp & Hf & Hl & _).
  unfold read_weight, READ_ATTEMPTS. cbn [read_weight_loop].
  unfold try_block. rewrite Hn.
  unfold connect, MAX_RECONNECT_ATTEMPTS. cbn [connect_loop].
  unfold os_path_exists. rewrite Hex. cbn [pop].
  unfold serial_Serial. cbn [serial_open_q emit]. rewrite Hop. cbn [pop].
  cbn [serial set_serial handle]. unfold device_read.
  cbn [device_q emit]. rewrite Hq. cbn [pop]. rewrite Hd.
  rewrite !Hp. cbn [next_handle emit trace path_exists_q serial_open_q device_q].
  eexists. split.
  - unfold set_serial. rewrite Hp, Hl. reflexivity.
  - cbn [trace emit]. rewrite <- !app_assoc. reflexivity.
Qed.

Lemma read_after_close_reconnects_witness :
  exists w',
    read_weight (close (connected_scale (Some 10%float)))
      (device_world 1 [Line "ST,GS,+010.20kg"])
    = (Some 10.2%float,
       set_serial (connected_scale (Some 10%float))
         (Some {| handle := next_handle (device_world 1 [Line "ST,GS,+010.20kg"]);
                  is_open := true |}) false, w')
    /\ trace w'
       = trace (device_world 1 [Line "ST,GS,+010.20kg"])
         ++ [EvExists (port (connected_scale (Some 10%float))) true;
             EvOpen (port (connected_scale (Some 10%float)))
               (Some (next_handle (device_world 1 [Line "ST,GS,+010.20kg"])));
             EvReset (next_handle (device_world 1 [Line "ST,GS,+010.20kg"]));
             EvReadline (next_handle (device_world 1 [Line "ST,GS,+010.20kg"]))].
Proof.
  apply (read_after_close_reconnects (connected_scale (Some 10%float))
           (device_world 1 [Line "ST,GS,+010.20kg"])
           {| handle := 0; is_open := true |} "ST,GS,+010.20kg" [] [] [] 10.2%float).
  - reflexivity.
  - reflexivity.
  - reflexivity.
  - reflexivity.
  - vm_compute. reflexivity.
Defined.

(** X11. After [cleanup_and_exit] no channel holds an open
    connection, the ports, flags and baselines are as before, running
    it again changes nothing, and the loop makes no further tick. *)
Theorem cleanup_closes_all (st : Main) :
  Forall (fun s => needs_connect s = true) (scales (cleanup_and_exit st))
  /\ port <$> scales (cleanup_and_exit st) = port <$> scales st
  /\ failed <$> scales (cleanup_and_exit st) = failed <$> scales st
  /\ last_valid_weight <$> scales (cleanup_and_exit st)
     = last_valid_weight <$> scales st
  /\ cleanup_and_exit (cleanup_and_exit st) = cleanup_and_exit st
  /\ forall ref_304 ref_303, tick ref_304 ref_303 (cleanup_and_exit st) = None.
Proof.
  unfold cleanup_and_exit. cbn [scales].
  split; [|split; [|split; [|split; [|split]]]].
  - apply Forall_fmap, Forall_true. intros s. apply close_fields.
  - rewrite <- list_fmap_compose. apply list_fmap_ext. intros i s _. apply close_fields.
  - rewrite <- list_fmap_compose. apply list_fmap_ext. intros i s _. apply close_fields.
  - rewrite <- list_fmap_compose. apply list_fmap_ext. intros i s _. apply close_fields.
  - f_equal. rewrite <- list_fmap_compose. apply list_fmap_ext.
    intros i s _. apply close_fields.
  - reflexivity.
Qed.

(** ** The CSV file *)

Lemma save_records_cons r recs c :
  save_records (r :: recs) c
  = save_records recs (save_to_csv (timestamp r) (weights r) c).
Proof. reflexivity. Qed.

Lemma save_to_csv_ok t ws c q :
  csv_open_q c = true :: q ->
  save_to_csv t ws c
  = {| csv_open_q := q;
       csv_rows := Some (match csv_rows c with
                         | Some rows => rows ++ [JTime t :: map of_weight ws]
                         | None => [csv_header (length ws); JTime t :: map of_weight ws]
                         end) |}.
Proof.
  intros Hq. unfold save_to_csv. rewrite Hq. cbn [pop].
  destruct (csv_rows c); reflexivity.
Qed.

Lemma save_to_csv_failed t ws c q :
  csv_open_q c = false :: q ->
  save_to_csv t ws c = {| csv_open_q := q; csv_rows := csv_rows c |}.
Proof. intros Hq. unfold save_to_csv. rewrite Hq. reflexivity. Qed.

Lemma save_records_app_rows recs :
  forall outcomes c q rows,
    length outcomes = length recs ->
    csv_open_q c = outcomes ++ q ->
    csv_rows c = Some rows ->
    csv_rows (save_records recs c) = Some (rows ++ (csv_row <$> written recs outcomes))
    /\ csv_open_q (save_records recs c) = q.
Proof.
  induction recs as [|r recs IH]; intros outcomes c q rows Hlen Hq Hrows.
  - destruct outcomes; [|discriminate]. cbn. rewrite app_nil_r. split; assumption.
  - destruct outcomes as [|o os]; [discriminate|]. injection Hlen as Hlen.
    rewrite save_records_cons. destruct o.
    + rewrite (save_to_csv_ok _ _ c (os ++ q) Hq), Hrows.
      destruct (IH os {| csv_open_q := os ++ q;
                         csv_rows := Some (rows ++ [JTime (timestamp r)
                                                    :: map of_weight (weights r)]) |} q
                   _ Hlen eq_refl eq_refl) as [H1 H2].
      split; [|exact H2]. rewrite H1. cbn [written]. rewrite fmap_cons.
      unfold csv_row at 2. rewrite <- app_assoc. reflexivity.
    + rewrite (save_to_csv_failed _ _ c (os ++ q) Hq).
      destruct (IH os {| csv_open_q := os ++ q; csv_rows := csv_rows c |} q rows
                   Hlen eq_refl Hrows) as [H1 H2].
      split; [|exact H2]. rewrite H1. reflexivity.
Qed.

(** X12. Saving the records of several ticks: a save whose [open]
    fails leaves the file as it is; the header row is written once,
    by the first save that goes through on a missing file, with one
    weight column per slot of that record; every later save that goes
    through appends exactly one row, after the rows already there. *)
Theorem save_records_rows (recs : list Record_) (outcomes : list bool)
    (c : Csv) (q : list bool) :
  length outcomes = length recs ->
  csv_open_q c = outcomes ++ q ->
  csv_rows (save_records recs c)
  = match csv_rows c, written recs outcomes with
    | Some rows, ws => Some (rows ++ (csv_row <$> ws))
    | None, [] => None
    | None, r0 :: rest =>
        Some (csv_header (length (weights r0)) :: csv_row r0 :: (csv_row <$> rest))
    end.
Proof.
  revert outcomes c. induction recs as [|r recs IH]; intros outcomes c Hlen Hq.
  - destruct outcomes; [|discriminate]. cbn.
    destruct (csv_rows c); [rewrite app_nil_r|]; reflexivity.
  - destruct (csv_rows c) as [rows|] eqn:Hrows.
    + apply (save_records_app_rows (r :: recs) outcomes c q rows Hlen Hq Hrows).
    + destruct outcomes as [|o os]; [discriminate|]. injection Hlen as Hlen.
      rewrite save_records_cons. destruct o.
      * rewrite (save_to_csv_ok _ _ c (os ++ q) Hq), Hrows.
        destruct (save_records_app_rows recs os
                    {| csv_open_q := os ++ q;
                       csv_rows := Some [csv_header (length (weights r));
                                         JTime (timestamp r)
                                         :: map of_weight (weights r)] |}
                    q _ Hlen eq_refl eq_refl) as [H1 _].
        rewrite H1. reflexivity.
      * rewrite (save_to_csv_failed _ _ c (os ++ q) Hq).
        rewrite (IH os {| csv_open_q := os ++ q; csv_rows := csv_rows c |} Hlen eq_refl).
        cbn [csv_rows written]. rewrite Hrows. reflexivity.
Qed.

Lemma save_records_rows_witness :
  csv_rows (save_records
              [{| timestamp := at_time 738000 10 10 0; weights := [Some 1%float] |};
               {| timestamp := at_time 738000 10 20 0; weights := [Some 2%float] |};
               {| timestamp := at_time 738000 10 30 0; weights := [None] |}]
              {| csv_open_q := [false; true; true]; csv_rows := None |})
  = Some [csv_header 1;
          csv_row {| timestamp := at_time 738000 10 20 0; weights := [Some 2%float] |};
          csv_row {| timestamp := at_time 738000 10 30 0; weights := [None] |}].
Proof.
  apply (save_records_rows
           [{| timestamp := at_time 738000 10 10 0; weights := [Some 1%float] |};
            {| timestamp := at_time 738000 10 20 0; weights := [Some 2%float] |};
            {| timestamp := at_time 738000 10 30 0; weights := [None] |}]
           [false; true; true]
           {| csv_open_q := [false; true; true]; csv_rows := None |} []).
  - reflexivity.
  - reflexivity.
Defined.

End Sinks.
(* ================================================================== *)
(** * Further properties: the upload and the start-up of Firebase *)
(* ================================================================== *)

Section UploadRetries.

Lemma push_failed r data fb :
  fst (pop false (push_q fb)) = false ->
  push r data fb = (false, {| push_q := snd (pop false (push_q fb)); db := db fb |}).
Proof.
  intros H. unfold push. destruct (pop false (push_q fb)) as [ok q].
  cbn [fst snd] in *. rewrite H. reflexivity.
Qed.

Lemma upload_loop_all_fail n ref_304 ref_303 t ws :
  forall fb,
    Forall (eq false) (take n (push_q fb)) ->
    upload_loop n ref_304 ref_303 t ws fb
    = {| push_q := drop n (push_q fb); db := db fb |}.
Proof.
  induction n as [|n IH]; intros fb Hq.
  - destruct fb; reflexivity.
  - cbn [upload_loop]. unfold upload_attempt.
    assert (Hpop : fst (pop false (push_q fb)) = false
                   /\ snd (pop false (push_q fb)) = drop 1 (push_q fb)
                   /\ Forall (eq false) (take n (drop 1 (push_q fb)))).
    { destruct (push_q fb) as [|x q]; cbn.
      - rewrite take_nil. repeat split. constructor.
      - cbn in Hq. inversion Hq; subst. rewrite drop_0. repeat split. assumption. }
    destruct Hpop as (H1 & H2 & H3).
    rewrite (push_failed _ _ fb H1), H2.
    rewrite IH by exact H3. cbn [push_q db]. rewrite drop_drop. reflexivity.
Qed.

(** X13. When the first push of each of the three attempts raises,
    the upload is dropped: the store is as before, and exactly three
    push calls have been made (one per attempt), whatever the record. *)
Theorem upload_dropped_after_three (ref_304 ref_303 : Reference) (t : datetime)
    (ws : list (option float)) (fb : Firebase) :
  Forall (eq false) (take 3 (push_q fb)) ->
  upload_to_firebase ref_304 ref_303 t ws fb
  = {| push_q := drop 3 (push_q fb); db := db fb |}.
Proof. apply upload_loop_all_fail. Qed.

Lemma upload_dropped_after_three_witness :
  upload_to_firebase node node (at_time 738000 10 10 0) [Some 1%float]
    {| push_q := [false; false; false; true]; db := ∅ |}
  = {| push_q := drop 3 [false; false; false; true]; db := ∅ |}.
Proof.
  apply (upload_dropped_after_three node node (at_time 738000 10 10 0) [Some 1%float]
           {| push_q := [false; false; false; true]; db := ∅ |}).
  repeat constructor.
Defined.

(** X14. A failure of the second push makes the retry push the first
    dictionary again: with more than three slots, when the pushes go
    ok, fail, ok, ok, the node ends up holding the first dictionary
    twice, then the second one. *)
Theorem upload_retry_duplicates (t : datetime) (ws : list (option float))
    (w3 : option float) (fb : Firebase) (q : list bool) :
  3 < length ws -> ws !! 2 = Some w3 ->
  push_q fb = true :: false :: true :: true :: q ->
  children (upload_to_firebase node node t ws fb) "weights/12644"
  = children fb "weights/12644" ++ [data_304 t ws; data_304 t ws; data_303 t w3]
  /\ push_q (upload_to_firebase node node t ws fb) = q.
Proof.
  intros Hlen Hw3 Hq. apply Nat.ltb_lt in Hlen.
  unfold upload_to_firebase. cbn [upload_loop]. unfold upload_attempt.
  rewrite (push_ok _ _ fb _ Hq), Hlen, Hw3.
  rewrite push_failed by reflexivity. cbn [push_q pop snd].
  erewrite push_ok by reflexivity.
  erewrite push_ok by reflexivity.
  cbn [push_q db path node db_reference]. split; [|reflexivity].
  unfold children. cbn [db].
  rewrite !lookup_insert_eq. cbn [default]. unfold id.
  rewrite <- !app_assoc. reflexivity.
Qed.

Lemma upload_retry_duplicates_witness :
  children (upload_to_firebase node node (at_time 738000 10 10 0)
              [Some 1%float; Some 2%float; Some 3%float; Some 4%float]
              {| push_q := [true; false; true; true]; db := ∅ |}) "weights/12644"
  = children {| push_q := [true; false; true; true]; db := ∅ |} "weights/12644"
    ++ [data_304 (at_time 738000 10 10 0)
          [Some 1%float; Some 2%float; Some 3%float; Some 4%float];
        data_304 (at_time 738000 10 10 0)
          [Some 1%float; Some 2%float; Some 3%float; Some 4%float];
        data_303 (at_time 738000 10 10 0) (Some 3%float)]
  /\ push_q (upload_to_firebase node node (at_time 738000 10 10 0)
               [Some 1%float; Some 2%float; Some 3%float; Some 4%float]
               {| push_q := [true; false; true; true]; db := ∅ |}) = [].
Proof.
  apply (upload_retry_duplicates (at_time 738000 10 10 0)
           [Some 1%float; Some 2%float; Some 3%float; Some 4%float] (Some 3%float)
           {| push_q := [true; false; true; true]; db := ∅ |} []).
  - simpl. lia.
  - reflexivity.
  - reflexivity.
Defined.

(** ** The store only grows *)

Lemma push_grows r data fb p :
  children fb p `prefix_of` children (snd (push r data fb)) p
  /\ (p <> path r -> db (snd (push r data fb)) !! p = db fb !! p).
Proof.
  unfold push. destruct (pop false (push_q fb)) as [ok q]. destruct ok; cbn [snd db].
  - split.
    + unfold children at 2. cbn [db].
      destruct (decide (path r = p)) as [->|Hne].
      * rewrite lookup_insert_eq. cbn. apply prefix_app_r. reflexivity.
      * rewrite lookup_insert_ne by exact Hne. reflexivity.
    + intros Hne. apply lookup_insert_ne. congruence.
  - split; [reflexivity | intros _; reflexivity].
Qed.

Lemma upload_attempt_grows ref_304 ref_303 t ws fb p :
  children fb p `prefix_of` children (snd (upload_attempt ref_304 ref_303 t ws fb)) p
  /\ (p <> path ref_304 -> p <> path ref_303 ->
      db (snd (upload_attempt ref_304 ref_303 t ws fb)) !! p = db fb !! p).
Proof.
  unfold upload_attempt.
  destruct (push_grows ref_304 (data_304 t ws) fb p) as [H1 H2].
  destruct (push ref_304 (data_304 t ws) fb) as [ok fb1]. cbn [snd] in H1, H2.
  destruct ok; [|split; [exact H1 | intros Hn _; exact (H2 Hn)]].
  destruct (3 <? length ws)%nat; [|split; [exact H1 | intros Hn _; exact (H2 Hn)]].
  destruct (ws !! 2) as [w3|]; [|split; [exact H1 | intros Hn _; exact (H2 Hn)]].
  destruct (push_grows ref_303 (data_303 t w3) fb1 p) as [H3 H4]. split.
  - etransitivity; [exact H1 | exact H3].
  - intros Hn1 Hn2. rewrite (H4 Hn2). exact (H2 Hn1).
Qed.

Lemma upload_loop_grows n ref_304 ref_303 t ws p :
  forall fb,
    children fb p `prefix_of` children (upload_loop n ref_304 ref_303 t ws fb) p
    /\ (p <> path ref_304 -> p <> path ref_303 ->
        db (upload_loop n ref_304 ref_303 t ws fb) !! p = db fb !! p).
Proof.
  induction n as [|n IH]; intros fb; cbn [upload_loop].
  - split; [reflexivity | intros _ _; reflexivity].
  - destruct (upload_attempt_grows ref_304 ref_303 t ws fb p) as [H1 H2].
    destruct (upload_attempt ref_304 ref_303 t ws fb) as [ok fb1]. cbn [snd] in H1, H2.
    destruct ok; [split; [exact H1 | exact H2]|].
    destruct (IH fb1) as [H3 H4]. split.
    + etransitivity; [exact H1 | exact H3].
    + intros Hn1 Hn2. rewrite (H4 Hn1 Hn2). exact (H2 Hn1 Hn2).
Qed.

(** X15. An upload only appends: whatever the outcomes of the pushes,
    under every node the children present before are still there, in
    the same order, at the front; and the nodes other than the two
    destinations are not touched. *)
Theorem upload_append_only (ref_304 ref_303 : Reference) (t : datetime)
    (ws : list (option float)) (fb : Firebase) (p : string) :
  children fb p `prefix_of` children (upload_to_firebase ref_304 ref_303 t ws fb) p
  /\ (p <> path ref_304 -> p <> path ref_303 ->
      db (upload_to_firebase ref_304 ref_303 t ws fb) !! p = db fb !! p).
Proof. apply upload_loop_grows. Qed.

(** X16. The first dictionary, for any record: it holds the timestamp
    and, for each of the first three slots, its value under [weight1],
    [weight2], [weight3]; it holds nothing else, so slots beyond the
    third never reach it. *)
Theorem data_304_slots (t : datetime) (ws : list (option float)) :
  data_304 t ws !! "timestamp" = Some (JTime t)
  /\ (forall i w, i < 3 -> ws !! i = Some w ->
        data_304 t ws !! ("weight" +:+ pretty (S i)) = Some (of_weight w))
  /\ size (data_304 t ws) = S (min 3 (length ws)).
Proof.
  destruct ws as [|a [|b [|c rest]]].
  - split; [reflexivity|]. split; [|reflexivity]. intros i w _ H. discriminate.
  - split; [reflexivity|]. split; [|reflexivity].
    intros [|i] w _ H; [|discriminate]. injection H as <-. reflexivity.
  - split; [reflexivity|]. split; [|reflexivity].
    intros [|[|i]] w _ H; try discriminate; injection H as <-; reflexivity.
  - split; [reflexivity|]. split; [|reflexivity].
    intros [|[|[|i]]] w Hi H; try lia; injection H as <-; reflexivity.
Qed.

(** ** Start-up *)

Lemma setup_firebase_loop_none n :
  forall outcomes,
    setup_firebase_loop n outcomes = None <-> Forall (eq false) (take n outcomes).
Proof.
  induction n as [|n IH]; intros outcomes; cbn [setup_firebase_loop].
  - rewrite take_0. split; [constructor | reflexivity].
  - destruct outcomes as [|x rest]; cbn [pop].
    + rewrite IH, !take_nil. reflexivity.
    + cbn [take]. destruct x.
      * split; [discriminate|]. intros H. inversion H; discriminate.
      * rewrite IH. split; [intros H; constructor; [reflexivity | exact H]|].
        intros H. inversion H; assumption.
Qed.

(** X17. [setup_firebase_with_retry] makes at most three attempts: it
    raises exactly when the first three all fail (an attempt that
    would succeed in fourth place is never made), and otherwise
    returns the two references to 'weights/12644'. *)
Theorem setup_firebase_three_attempts (outcomes : list bool) :
  (setup_firebase_with_retry outcomes = None
   <-> Forall (eq false) (take 3 outcomes))
  /\ (setup_firebase_with_retry outcomes <> None ->
      setup_firebase_with_retry outcomes = Some (node, node)).
Proof.
  split; [apply setup_firebase_loop_none|].
  intros H. destruct (setup_firebase_with_retry outcomes) as [[a b]|] eqn:E;
    [|contradiction].
  destruct (setup_firebase_loop_refs _ _ _ _ E) as [-> ->]. reflexivity.
Qed.

End UploadRetries.
(* ================================================================== *)
(** * Further properties: the cadence of the scheduler *)
(* ================================================================== *)

Section Cadence.

Local Open Scope Z_scope.

Lemma ordinal_bound d :
  valid d -> ordinal d * 86400000000 <= to_us d < (ordinal d + 1) * 86400000000.
Proof.
  intros (H1 & H2 & H3 & H4 & H5). rewrite to_us_fields. lia.
Qed.

(** X19. Consecutive slots are exactly ten minutes apart: the slot
    after the slot after [now] is ten minutes later than it. *)
Theorem next_slot_cadence (now : datetime) :
  valid now -> ordinal now + 1 < MAXORDINAL ->
  exists s1 s2,
    get_next_slot now = Some s1 /\ get_next_slot s1 = Some s2
    /\ DateTime.diff s2 s1 = 600000000.
Proof.
  intros Hv Ho.
  destruct (get_next_slot_us now Hv ltac:(lia)) as (s1 & Hs1 & Hv1 & _ & Hus1).
  pose proof (ordinal_bound now Hv) as Hb. pose proof (ordinal_bound s1 Hv1) as Hb1.
  pose proof (Z.div_mod (to_us now) 600000000 ltac:(lia)) as Hd.
  pose proof (Z.mod_pos_bound (to_us now) 600000000 ltac:(lia)) as Hm.
  assert (Ho1 : ordinal s1 < MAXORDINAL) by (unfold MAXORDINAL in *; lia).
  destruct (get_next_slot_us s1 Hv1 Ho1) as (s2 & Hs2 & _ & _ & Hus2).
  exists s1, s2. split; [exact Hs1|]. split; [exact Hs2|].
  unfold DateTime.diff. rewrite Hus2.
  assert (E : to_us s1 / 600000000 = to_us now / 600000000 + 1)
    by (rewrite Hus1; apply Z.div_mul; lia).
  rewrite E, Hus1. lia.
Qed.

Lemma next_slot_cadence_witness :
  exists s1 s2,
    get_next_slot (at_time 738000 23 55 59) = Some s1 /\ get_next_slot s1 = Some s2
    /\ DateTime.diff s2 s1 = 600000000.
Proof.
  apply (next_slot_cadence (at_time 738000 23 55 59)).
  - unfold valid, at_time, MAXORDINAL; simpl; lia.
  - unfold at_time, MAXORDINAL; simpl; lia.
Defined.

(** X20. Two instants of the same ten-minute block have the same next
    slot: the alignment does not depend on when, within the block,
    the loop asks. *)
Theorem next_slot_same_block (a b : datetime) :
  valid a -> valid b -> ordinal a < MAXORDINAL -> ordinal b < MAXORDINAL ->
  to_us a / 600000000 = to_us b / 600000000 ->
  get_next_slot a = get_next_slot b.
Proof.
  intros Hva Hvb Hoa Hob Hblock.
  destruct (get_next_slot_us a Hva Hoa) as (sa & Hsa & Hvsa & _ & Husa).
  destruct (get_next_slot_us b Hvb Hob) as (sb & Hsb & Hvsb & _ & Husb).
  rewrite Hsa, Hsb. f_equal.
  rewrite <- (of_us_to_us sa Hvsa), <- (of_us_to_us sb Hvsb).
  rewrite Husa, Husb, Hblock. reflexivity.
Qed.

Lemma next_slot_same_block_witness :
  get_next_slot (at_time 738000 10 0 0) = get_next_slot (at_time 738000 10 9 59).
Proof.
  apply (next_slot_same_block (at_time 738000 10 0 0) (at_time 738000 10 9 59)).
  - unfold valid, at_time, MAXORDINAL; simpl; lia.
  - unfold valid, at_time, MAXORDINAL; simpl; lia.
  - unfold at_time, MAXORDINAL; simpl; lia.
  - unfold at_time, MAXORDINAL; simpl; lia.
  - reflexivity.
Defined.

End Cadence.

(* ================================================================== *)
(** * Further properties: the wait of the main loop *)
(* ================================================================== *)

Section Wait.

(** ** The wait before a poll *)

Lemma emit_trace e w : trace w `prefix_of` trace (emit e w).
Proof. cbn [emit trace]. apply prefix_app_r. reflexivity. Qed.

Lemma connect_loop_trace n s w :
  trace w `prefix_of` trace (snd (connect_loop n s w)).
Proof.
  revert w. induction n as [|n IH]; intros w; cbn [connect_loop]; [reflexivity|].
  unfold os_path_exists.
  destruct (pop false (path_exists_q w)) as [found q]. destruct found.
  - unfold serial_Serial. cbn [serial_open_q emit next_handle].
    destruct (pop false (serial_open_q w)) as [ok q']. destruct ok.
    + unfold emit. cbn [snd trace]. rewrite <- ?app_assoc.
      apply prefix_app_r. reflexivity.
    + etrans; [|apply IH]. unfold sleep, emit. cbn [trace].
      rewrite <- ?app_assoc. apply prefix_app_r. reflexivity.
  - etrans; [|apply IH]. unfold sleep, emit. cbn [trace].
    rewrite <- ?app_assoc. apply prefix_app_r. reflexivity.
Qed.

Lemma device_read_trace h w : trace w `prefix_of` trace (snd (device_read h w)).
Proof.
  unfold device_read. destruct (pop (Line "") (device_q w)) as [r q].
  destruct r; unfold emit; cbn [snd trace]; rewrite <- ?app_assoc;
    apply prefix_app_r; reflexivity.
Qed.

Lemma try_block_trace s w : trace w `prefix_of` trace (snd (try_block s w)).
Proof.
  unfold try_block.
  assert (Hc : trace w `prefix_of`
               trace (snd (if needs_connect s then connect s w else (s, w)))).
  { destruct (needs_connect s); [apply connect_loop_trace | reflexivity]. }
  destruct (if needs_connect s then connect s w else (s, w)) as [s1 w1].
  cbn [snd] in Hc.
  destruct (serial s1) as [h|]; [|exact Hc].
  pose proof (device_read_trace (handle h) w1) as Hr.
  destruct (device_read (handle h) w1) as [r w2]. cbn [snd] in Hr.
  assert (H : trace w `prefix_of` trace w2) by (etrans; eassumption).
  destruct r as [| |raw]; [exact H | exact H |].
  destruct (decode_line (PyStr.strip raw)); exact H.
Qed.

Lemma read_weight_loop_trace n s w :
  trace w `prefix_of` trace (snd (read_weight_loop n s w)).
Proof.
  revert s w. induction n as [|n IH]; intros s w; cbn [read_weight_loop];
    [reflexivity|].
  pose proof (try_block_trace s w) as Ht.
  destruct (try_block s w) as [[o s1] w1]. cbn [snd] in Ht.
  destruct o as [v| | |].
  - exact Ht.
  - pose proof (connect_loop_trace MAX_RECONNECT_ATTEMPTS s1 w1) as Hc.
    fold (connect s1 w1) in Hc.
    destruct (connect s1 w1) as [s2 w2]. cbn [snd] in Hc.
    etrans; [exact Ht|]. etrans; [exact Hc|].
    etrans; [apply (emit_trace (EvSleep READ_DELAY))|]. apply IH.
  - etrans; [exact Ht|]. apply IH.
  - etrans; [exact Ht|].
    etrans; [apply (emit_trace (EvSleep READ_DELAY))|]. apply IH.
Qed.

Lemma validation_loop_trace n last s w :
  trace w `prefix_of` trace (snd (validation_loop n last s w)).
Proof.
  revert s w. induction n as [|n IH]; intros s w; cbn [validation_loop];
    [reflexivity|].
  pose proof (read_weight_loop_trace READ_ATTEMPTS s w) as Hr.
  fold (read_weight s w) in Hr.
  destruct (read_weight s w) as [[r s1] w1]. cbn [snd] in Hr.
  assert (Hrec : trace w `prefix_of` trace (snd (validation_loop n last s1 w1)))
    by (etrans; [exact Hr | apply IH]).
  destruct r as [v|]; [|exact Hrec].
  destruct (within_threshold v last); [exact Hr | exact Hrec].
Qed.

Lemma get_validated_weight_trace s w :
  trace w `prefix_of` trace (snd (get_validated_weight s w)).
Proof.
  unfold get_validated_weight. destruct (last_valid_weight s) as [last|].
  - apply validation_loop_trace.
  - pose proof (read_weight_loop_trace READ_ATTEMPTS s w) as Hr.
    fold (read_weight s w) in Hr.
    destruct (read_weight s w) as [[r s1] w1]. destruct r; exact Hr.
Qed.

Lemma poll_trace todo i lw ws w done lw' ws' w' :
  poll i todo lw ws w = Some (done, lw', ws', w') ->
  trace w `prefix_of` trace w'.
Proof.
  revert i lw ws w done lw' ws' w'.
  induction todo as [|scale todo IH]; intros i lw ws w done lw' ws' w';
    cbn [poll].
  - intros E. injection E as _ _ _ <-. reflexivity.
  - unfold poll_scale.
    pose proof (get_validated_weight_trace scale w) as Hg.
    destruct (get_validated_weight scale w) as [[r s1] w1]. cbn [snd] in Hg.
    assert (Hrest : forall sc lw1 ws1,
              match poll (S i) todo lw1 ws1 w1 with
              | Some (done0, lw2, ws2, w2) => Some (sc :: done0, lw2, ws2, w2)
              | None => None
              end = Some (done, lw', ws', w') ->
              trace w `prefix_of` trace w').
    { intros sc lw1 ws1 E.
      destruct (poll (S i) todo lw1 ws1 w1) as [[[[d0 l0] x0] w2]|] eqn:Ep;
        [|discriminate].
      injection E as _ _ _ <-. etrans; [exact Hg|]. eapply IH. exact Ep. }
    destruct r as [v|].
    + destruct (i <? length lw)%nat; [apply Hrest | discriminate].
    + destruct (lw !! i) as [last|]; [apply Hrest | discriminate].
Qed.

Local Open Scope Z_scope.

(** X18. The wait of a tick.  [main] reads the clock once ([now]) and
    [get_next_slot] reads it again ([now']); the tick sleeps
    [max(0, next_time - now)] before anything else.  When the clock
    has not gone back between the two reads the wait is positive and
    at most ten minutes plus the gap between them; when both reads
    fall in the same ten-minute block it is at most ten minutes; when
    the second read is ten minutes or more behind the first the clamp
    makes the sleep zero. *)
Theorem tick_wait (ref_304 ref_303 : Reference) (st st' : Main) (r : Record_)
    (now now' : datetime) (q : list datetime) :
  tick ref_304 ref_303 st = Some (st', r) ->
  clock_q st = now :: now' :: q ->
  valid now' -> ordinal now' < MAXORDINAL ->
  exists next_time,
    get_next_slot now' = Some next_time
    /\ (trace (world st) ++ [EvSleep (Z.max 0 (DateTime.diff next_time now))])
         `prefix_of` trace (world st')
    /\ (to_us now <= to_us now' ->
        0 < DateTime.diff next_time now <= 600000000 + (to_us now' - to_us now))
    /\ (to_us now / 600000000 = to_us now' / 600000000 ->
        0 < DateTime.diff next_time now <= 600000000)
    /\ (to_us now' + 600000000 <= to_us now ->
        Z.max 0 (DateTime.diff next_time now) = 0).
Proof.
  intros Htick Hclock Hv Ho.
  destruct (get_next_slot_us now' Hv Ho) as (next_time & Hs & _ & _ & Hus).
  exists next_time. split; [exact Hs|].
  pose proof (Z.div_mod (to_us now') 600000000 ltac:(lia)) as Hdm'.
  pose proof (Z.mod_pos_bound (to_us now') 600000000 ltac:(lia)) as Hb'.
  pose proof (Z.div_mod (to_us now) 600000000 ltac:(lia)) as Hdm.
  pose proof (Z.mod_pos_bound (to_us now) 600000000 ltac:(lia)) as Hb.
  split; [|unfold DateTime.diff; rewrite Hus; repeat split; intros; lia].
  unfold tick in Htick. destruct (running st); [|discriminate].
  rewrite Hclock in Htick. cbn [pop] in Htick. rewrite Hs in Htick.
  destruct (pop epoch q) as [now'' q3].
  destruct (poll 0 (scales st) (last_weights st) []
              (sleep (Z.max 0 (DateTime.diff next_time now)) (world st)))
    as [[[[scales1 lw1] ws] w1]|] eqn:Ep; [|discriminate].
  apply poll_trace in Ep. cbn [sleep emit trace] in Ep.
  destruct (existsb failed scales1).
  - destruct (pop false (reboot_q st)) as [returns rq].
    injection Htick as <- _. exact Ep.
  - injection Htick as <- _. exact Ep.
Qed.

Lemma tick_wait_witness :
  exists next_time,
    get_next_slot (at_time 738000 10 10 0) = Some next_time
    /\ 0 < DateTime.diff next_time (at_time 738000 10 9 59) <= 600000000 + 1000000
    /\ Z.max 0 (DateTime.diff next_time (at_time 738000 10 20 0)) = 0.
Proof.
  pose (st := fun now : datetime =>
    {| scales := [connected_scale (Some 10%float)];
       last_weights := [Some 10%float];
       world := device_world 0 [Line "ST,GS,+010.20kg"];
       firebase := {| push_q := [true]; db := ∅ |};
       csv := {| csv_open_q := [true]; csv_rows := None |};
       clock_q := [now; at_time 738000 10 10 0; at_time 738000 10 20 0];
       reboot_q := []; reboots := 0%nat; running := true |}).
  pose (r := {| timestamp := at_time 738000 10 20 0;
                weights := [Some 10.2%float] |}).
  destruct (tick_wait node node (st (at_time 738000 10 9 59))
              (state_after node node 1 (st (at_time 738000 10 9 59))) r
              (at_time 738000 10 9 59) (at_time 738000 10 10 0)
              [at_time 738000 10 20 0])
    as (n1 & Hn1 & _ & Hmono & _).
  { vm_compute. reflexivity. }
  { reflexivity. }
  { unfold valid, at_time, MAXORDINAL; simpl; lia. }
  { unfold at_time, MAXORDINAL; simpl; lia. }
  destruct (tick_wait node node (st (at_time 738000 10 20 0))
              (state_after node node 1 (st (at_time 738000 10 20 0))) r
              (at_time 738000 10 20 0) (at_time 738000 10 10 0)
              [at_time 738000 10 20 0])
    as (n2 & Hn2 & _ & _ & _ & Hback).
  { vm_compute. reflexivity. }
  { reflexivity. }
  { unfold valid, at_time, MAXORDINAL; simpl; lia. }
  { unfold at_time, MAXORDINAL; simpl; lia. }
  assert (E : n2 = n1) by congruence. subst n2.
  exists n1. split; [exact Hn1|]. split.
  - apply Hmono. vm_compute. discriminate.
  - apply Hback. vm_compute. discriminate.
Defined.

End Wait.

(* ================================================================== *)
(** * Further properties: the main loop *)
(* ================================================================== *)

Section Loop.


(** X21. From the start of [main] the loop never fails on an index:
    in every state it reaches, as long as the process runs and the
    clock stays within the calendar, the next tick goes through and
    yields a record. *)
Theorem tick_goes_through (ref_304 ref_303 : Reference) (ports : list string)
    (w : World) (fb : Firebase) (c : Csv) (clock : list datetime) (rq : list bool)
    (recs : list Record_) (st : Main) :
  ticks ref_304 ref_303 (main_init ports w fb c clock rq) recs st ->
  running st = true ->
  get_next_slot (fst (pop epoch (snd (pop epoch (clock_q st))))) <> None ->
  exists st' r,
    tick ref_304 ref_303 st = Some (st', r)
    /\ length (weights r) = length ports.
Proof.
  intros Hticks Hrun Hclock.
  destruct (ticks_invariant _ _ _ _ _ _ _ _ _ _ Hticks) as [(I1 & I2 & _) _].
  unfold tick. rewrite Hrun.
  destruct (pop epoch (clock_q st)) as [now q1]. cbn [snd] in Hclock.
  destruct (pop epoch q1) as [now' q2]. cbn [fst] in Hclock.
  destruct (get_next_slot now') as [next_time|]; [|contradiction].
  destruct (pop epoch q2) as [now'' q3].
  rewrite I1.
  destruct (poll_baselines (scales st) [] []
              (sleep (Z.max 0 (DateTime.diff next_time now)) (world st)))
    as (todo' & w' & He & Hp & _).
  cbn [length app] in He. rewrite He.
  assert (Hlen : length (last_valid_weight <$> todo') = length ports)
    by (rewrite length_fmap, <- I2, <- Hp, !length_fmap; reflexivity).
  destruct (existsb failed todo').
  - destruct (pop false (reboot_q st)) as [returns rq'].
    eexists _, _. split; [reflexivity | exact Hlen].
  - eexists _, _. split; [reflexivity | exact Hlen].
Qed.

Lemma tick_goes_through_witness :
  exists st' r,
    tick node node
      (main_init SCALE_PORTS
            {| path_exists_q := []; serial_open_q := []; device_q := [];
               next_handle := 0; trace := [] |}
            {| push_q := repeat true 4; db := ∅ |}
            {| csv_open_q := repeat true 2; csv_rows := None |}
            two_ticks_clock [true; true])
    = Some (st', r)
    /\ length (weights r) = length SCALE_PORTS.
Proof.
  apply (tick_goes_through node node SCALE_PORTS
           {| path_exists_q := []; serial_open_q := []; device_q := [];
              next_handle := 0; trace := [] |}
           {| push_q := repeat true 4; db := ∅ |}
           {| csv_open_q := repeat true 2; csv_rows := None |}
           two_ticks_clock [true; true] []
           (main_init SCALE_PORTS
            {| path_exists_q := []; serial_open_q := []; device_q := [];
               next_handle := 0; trace := [] |}
            {| push_q := repeat true 4; db := ∅ |}
            {| csv_open_q := repeat true 2; csv_rows := None |}
            two_ticks_clock [true; true])).
  - apply ticks_start.
  - vm_compute. reflexivity.
  - vm_compute. intros H. discriminate H.
Defined.

Lemma ticks_snoc_inv ref_304 ref_303 st0 recs r st :
  ticks ref_304 ref_303 st0 (recs ++ [r]) st ->
  exists st1,
    ticks ref_304 ref_303 st0 recs st1 /\ tick ref_304 ref_303 st1 = Some (st, r).
Proof.
  intros Hticks.
  inversion Hticks as [E|recs0 st1 st2 r0 Hprev Htick E]; subst.
  - destruct recs; discriminate.
  - apply app_inj_tail in E. destruct E as [-> ->]. exists st1. split; assumption.
Qed.

(** X22. After every tick the values the orchestrator remembers are
    the slots of the record it has just built, and a channel whose
    slot is empty is marked failed (so that tick ends with a reboot
    request). *)
Theorem remembered_values_are_record (ref_304 ref_303 : Reference)
    (ports : list string) (w : World) (fb : Firebase) (c : Csv)
    (clock : list datetime) (rq : list bool)
    (recs : list Record_) (r : Record_) (st : Main) :
  ticks ref_304 ref_303 (main_init ports w fb c clock rq) (recs ++ [r]) st ->
  last_weights st = weights r
  /\ (forall i b, scales st !! i = Some b -> weights r !! i = Some None ->
        failed b = true)
  /\ (In None (weights r) -> existsb failed (scales st) = true).
Proof.
  intros Hticks.
  destruct (ticks_snoc_inv _ _ _ _ _ _ Hticks) as (st1 & Hprev & Htick).
  destruct (ticks_invariant _ _ _ _ _ _ _ _ _ _ Hprev) as [(I1 & _) _].
  destruct (tick_baselines _ _ _ _ _ I1 Htick) as (T1 & T2 & _ & T4 & _).
  assert (Hslot : forall i b, scales st !! i = Some b -> weights r !! i = Some None ->
                              failed b = true).
  { intros i b Hb Hi. rewrite T2, list_lookup_fmap, Hb in Hi. cbn in Hi.
    injection Hi as Hi.
    destruct (Forall2_lookup_r _ _ _ _ _ T4 Hb) as (a & _ & Hab).
    apply Hab. exact Hi. }
  split; [congruence|]. split; [exact Hslot|].
  intros Hin. apply list_elem_of_In, list_elem_of_lookup in Hin. destruct Hin as [i Hi].
  pose proof Hi as Hi'. rewrite T2, list_lookup_fmap in Hi'.
  destruct (scales st !! i) as [b|] eqn:Hb; [|discriminate].
  apply existsb_exists. exists b. split.
  - apply list_elem_of_In. eapply list_elem_of_lookup_2. exact Hb.
  - eapply Hslot; eassumption.
Qed.

Lemma remembered_values_are_record_witness :
  last_weights (state_after node node 1
                  (main_init SCALE_PORTS
                     {| path_exists_q := []; serial_open_q := []; device_q := [];
                        next_handle := 0; trace := [] |}
                     {| push_q := repeat true 4; db := ∅ |}
                     {| csv_open_q := repeat true 2; csv_rows := None |}
                     two_ticks_clock [true; true]))
  = weights {| timestamp := at_time 738000 10 10 0; weights := [None] |}.
Proof.
  apply (remembered_values_are_record node node SCALE_PORTS
           {| path_exists_q := []; serial_open_q := []; device_q := [];
              next_handle := 0; trace := [] |}
           {| push_q := repeat true 4; db := ∅ |}
           {| csv_open_q := repeat true 2; csv_rows := None |}
           two_ticks_clock [true; true] []
           {| timestamp := at_time 738000 10 10 0; weights := [None] |}).
  apply (run_state_records node node 1
           (main_init SCALE_PORTS
              {| path_exists_q := []; serial_open_q := []; device_q := [];
                 next_handle := 0; trace := [] |}
              {| push_q := repeat true 4; db := ∅ |}
              {| csv_open_q := repeat true 2; csv_rows := None |}
              two_ticks_clock [true; true])
           ([] ++ [{| timestamp := at_time 738000 10 10 0; weights := [None] |}])).
  vm_compute. reflexivity.
Defined.

End Loop.
(* ================================================================== *)
(** * Further properties: the flag of a channel without a handle *)
(* ================================================================== *)

Section Flag.

Lemma connect_flagged s w : flagged (fst (connect s w)).
Proof.
  unfold flagged.
  destruct (connect_loop_outcome MAX_RECONNECT_ATTEMPTS s w : _ /\ _ /\
    ((serial (fst (connect s w)) = _ /\ _)
     \/ (_ /\ failed (fst (connect s w)) = _ /\ _)))
    as (_ & _ & [(Hs & _) | (_ & Hf & _)]).
  - rewrite Hs. discriminate.
  - intros _. exact Hf.
Qed.

Lemma try_block_flagged s w : flagged s -> flagged (snd (fst (try_block s w))).
Proof.
  intros Hs. unfold try_block.
  pose proof (connect_flagged s w) as Hc.
  destruct (needs_connect s); [destruct (connect s w) as [s1 w1]; cbn [fst] in Hc|].
  - destruct (serial s1) as [h|]; [|exact Hc].
    destruct (device_read (handle h) w1) as [[| |raw] w2]; try exact Hc.
    destruct (decode_line (PyStr.strip raw)); exact Hc.
  - destruct (serial s) as [h|]; [|exact Hs].
    destruct (device_read (handle h) w) as [[| |raw] w2]; try exact Hs.
    destruct (decode_line (PyStr.strip raw)); exact Hs.
Qed.

Lemma read_weight_loop_flagged n s w :
  flagged s -> flagged (snd (fst (read_weight_loop n s w))).
Proof.
  revert s w. induction n as [|n IH]; intros s w Hs; cbn [read_weight_loop];
    [exact Hs|].
  pose proof (try_block_flagged s w Hs) as Ht.
  destruct (try_block s w) as [[o s1] w1]. cbn [fst snd] in Ht.
  destruct o as [v| | |]; [exact Ht | | apply IH; exact Ht | apply IH; exact Ht].
  pose proof (connect_flagged s1 w1) as Hc.
  destruct (connect s1 w1) as [s2 w2]. apply IH. exact Hc.
Qed.

Lemma validation_loop_flagged n last s w :
  flagged s -> flagged (snd (fst (validation_loop n last s w))).
Proof.
  revert s w. induction n as [|n IH]; intros s w Hs; cbn [validation_loop];
    [exact Hs|].
  pose proof (read_weight_loop_flagged READ_ATTEMPTS s w Hs) as Hr.
  unfold read_weight. destruct (read_weight_loop READ_ATTEMPTS s w) as [[r s1] w1].
  cbn [fst snd] in Hr. destruct r as [v|]; [|apply IH; exact Hr].
  destruct (within_threshold v last); [exact Hr | apply IH; exact Hr].
Qed.

Lemma get_validated_weight_flagged s w :
  flagged s -> flagged (snd (fst (get_validated_weight s w))).
Proof.
  intros Hs. unfold get_validated_weight. destruct (last_valid_weight s) as [last|].
  - apply validation_loop_flagged. exact Hs.
  - pose proof (read_weight_loop_flagged READ_ATTEMPTS s w Hs) as Hr.
    unfold read_weight. destruct (read_weight_loop READ_ATTEMPTS s w) as [[r s1] w1].
    destruct r; exact Hr.
Qed.

Lemma poll_flagged todo :
  forall i lw ws w todo' lw' ws' w',
    Forall flagged todo ->
    poll i todo lw ws w = Some (todo', lw', ws', w') ->
    Forall flagged todo'.
Proof.
  induction todo as [|a todo IH]; intros i lw ws w todo' lw' ws' w' Hf; cbn [poll].
  - intros E. inversion E. constructor.
  - inversion Hf as [|x l Ha Hrest]; subst. unfold poll_scale.
    pose proof (get_validated_weight_flagged a w Ha) as Hg.
    destruct (get_validated_weight a w) as [[r a1] w1]. cbn [fst snd] in Hg.
    destruct r as [v|].
    + destruct (i <? length lw)%nat; [|discriminate].
      destruct (poll (S i) todo _ _ w1) as [[[[d l2] ws2] w2]|] eqn:Ep; [|discriminate].
      intros E. inversion E; subst. constructor; [exact Hg|].
      eapply IH; [exact Hrest | exact Ep].
    + destruct (lw !! i) as [last|]; [|discriminate].
      destruct (poll (S i) todo _ _ w1) as [[[[d l2] ws2] w2]|] eqn:Ep; [|discriminate].
      intros E. inversion E; subst. constructor.
      * intros _. reflexivity.
      * eapply IH; [exact Hrest | exact Ep].
Qed.

Lemma tick_flagged ref_304 ref_303 st st2 r :
  Forall flagged (scales st) ->
  tick ref_304 ref_303 st = Some (st2, r) ->
  Forall flagged (scales st2).
Proof.
  intros Hf. unfold tick.
  destruct (running st); [|discriminate].
  destruct (pop epoch (clock_q st)) as [now q1].
  destruct (pop epoch q1) as [now' q2].
  destruct (get_next_slot now') as [next_time|]; [|discriminate].
  destruct (pop epoch q2) as [now'' q3].
  destruct (poll 0 (scales st) (last_weights st) [] _) as [[[[d lw] ws] w1]|] eqn:Ep;
    [|discriminate].
  pose proof (poll_flagged _ _ _ _ _ _ _ _ _ Hf Ep) as Hd.
  destruct (existsb failed d).
  - destruct (pop false (reboot_q st)) as [returns rq].
    intros E. inversion E; subst. exact Hd.
  - intros E. inversion E; subst. exact Hd.
Qed.

Lemma make_scales_flagged ports w : Forall flagged (fst (make_scales ports w)).
Proof.
  revert w. induction ports as [|p ports IH]; intros w; cbn [make_scales].
  - constructor.
  - pose proof (connect_flagged
                  {| port := p; serial := None; failed := false;
                     last_valid_weight := None |} w) as Hc.
    unfold Scale_init. destruct (connect _ w) as [s w1]. cbn [fst] in Hc.
    specialize (IH w1). destruct (make_scales ports w1) as [ss w2].
    constructor; assumption.
Qed.

(** X23. In every state the main loop reaches, a channel that holds no
    serial handle is marked failed: a lost connection never goes
    unnoticed by the reboot check at the end of the tick. *)
Theorem no_handle_is_flagged (ref_304 ref_303 : Reference) (ports : list string)
    (w : World) (fb : Firebase) (c : Csv) (clock : list datetime) (rq : list bool)
    (recs : list Record_) (st : Main) :
  ticks ref_304 ref_303 (main_init ports w fb c clock rq) recs st ->
  Forall flagged (scales st).
Proof.
  induction 1 as [|recs st1 st2 r Hticks IH Htick].
  - unfold main_init. pose proof (make_scales_flagged ports w) as H.
    destruct (make_scales ports w) as [ss w1]. exact H.
  - eapply tick_flagged; [exact IH | exact Htick].
Qed.

Lemma no_handle_is_flagged_witness :
  Forall flagged
    (scales (main_init SCALE_PORTS
               {| path_exists_q := []; serial_open_q := []; device_q := [];
                  next_handle := 0; trace := [] |}
               {| push_q := []; db := ∅ |}
               {| csv_open_q := []; csv_rows := None |} [] [])).
Proof.
  apply (no_handle_is_flagged node node SCALE_PORTS
           {| path_exists_q := []; serial_open_q := []; device_q := [];
              next_handle := 0; trace := [] |}
           {| push_q := []; db := ∅ |}
           {| csv_open_q := []; csv_rows := None |} [] [] []).
  apply ticks_start.
Defined.

End Flag.

(* ================================================================== *)
(** * Further properties: the field the decoder reads *)
(* ================================================================== *)

Section Field.

Lemma split_not_nil sep s : PyStr.split sep s <> [].
Proof.
  destruct s as [|c s]; cbn; [discriminate|].
  destruct (Ascii.eqb c sep); [discriminate|].
  destruct (PyStr.split sep s); discriminate.
Qed.

Lemma last_item_cons x l : l <> [] -> PyStr.last_item (x :: l) = PyStr.last_item l.
Proof. destruct l; [contradiction | reflexivity]. Qed.

Lemma no_comma_cons c s :
  no_comma (String c s) -> Ascii.eqb c "," = false /\ no_comma s.
Proof.
  unfold no_comma. cbn [PyStr.contains PyStr.drop_prefix].
  destruct (Ascii.eqb "," c) eqn:E; [discriminate|].
  intros H. split; [|exact H].
  destruct (Ascii.eqb_spec c ",") as [->|Hne]; [|reflexivity].
  rewrite Ascii.eqb_refl in E. discriminate.
Qed.

Lemma split_no_comma s : no_comma s -> PyStr.split "," s = [s].
Proof.
  induction s as [|c s IH]; intros H; [reflexivity|].
  destruct (no_comma_cons c s H) as [Hc Hs]. cbn. rewrite Hc, (IH Hs). reflexivity.
Qed.

Lemma last_item_split_cons c s :
  PyStr.last_item (PyStr.split "," (String c s))
  = if Ascii.eqb c ","
    then PyStr.last_item (PyStr.split "," s)
    else match PyStr.split "," s with
         | [h] => String c h
         | _ => PyStr.last_item (PyStr.split "," s)
         end.
Proof.
  cbn [PyStr.split]. destruct (Ascii.eqb c ",").
  - apply last_item_cons, split_not_nil.
  - destruct (PyStr.split "," s) as [|h [|x t]] eqn:E; try reflexivity.
    exfalso. exact (split_not_nil _ _ E).
Qed.

Lemma append_empty s : "" +:+ s = s.
Proof. reflexivity. Qed.

Lemma append_cons c a s : String c a +:+ s = String c (a +:+ s).
Proof. reflexivity. Qed.

Lemma split_with_comma pre field :
  exists h x t, PyStr.split "," (pre +:+ String "," field) = h :: x :: t.
Proof.
  induction pre as [|c pre IH];
    rewrite ?append_empty, ?append_cons; cbn [PyStr.split].
  - rewrite Ascii.eqb_refl.
    destruct (PyStr.split "," field) as [|x t] eqn:E;
      [exfalso; exact (split_not_nil _ _ E)|].
    exists EmptyString, x, t. reflexivity.
  - destruct IH as (h & x & t & E). rewrite E.
    destruct (Ascii.eqb c ",").
    + exists EmptyString, h, (x :: t). reflexivity.
    + exists (String c h), x, t. reflexivity.
Qed.

Lemma last_item_after_comma pre field :
  no_comma field ->
  PyStr.last_item (PyStr.split "," (pre +:+ String "," field)) = field.
Proof.
  intros Hf. induction pre as [|c pre IH].
  - rewrite append_empty, last_item_split_cons, Ascii.eqb_refl.
    rewrite (split_no_comma field Hf). reflexivity.
  - rewrite append_cons, last_item_split_cons.
    destruct (split_with_comma pre field) as (h & x & t & E).
    rewrite E in *. destruct (Ascii.eqb c ","); exact IH.
Qed.

Lemma contains_append old pre s :
  PyStr.contains old s = true -> PyStr.contains old (pre +:+ s) = true.
Proof.
  intros H. induction pre as [|c pre IH]; [exact H|].
  rewrite append_cons. cbn [PyStr.contains].
  destruct (PyStr.drop_prefix old (String c (pre +:+ s))); [reflexivity | exact IH].
Qed.

(** X24. Only the text after the last comma matters: for a field
    without a comma, the cleaned weight text of [pre,field] is that of
    [field]; and when the field carries the unit marker, the line
    decodes exactly as the field alone does. *)
Theorem decoder_reads_last_field (pre field : string) :
  no_comma field ->
  weight_str (pre +:+ String "," field) = weight_str field
  /\ (PyStr.contains "kg" field = true ->
      decode_line (pre +:+ String "," field) = decode_line field).
Proof.
  intros Hf.
  assert (E : weight_str (pre +:+ String "," field) = weight_str field).
  { unfold weight_str. rewrite (last_item_after_comma pre field Hf).
    rewrite (split_no_comma field Hf). reflexivity. }
  split; [exact E|].
  intros Hkg. unfold decode_line. rewrite E, Hkg.
  rewrite (contains_append "kg" pre (String "," field)); [reflexivity|].
  apply (contains_append "kg" "," field Hkg).
Qed.

Lemma decoder_reads_last_field_witness :
  weight_str ("ST,GS" +:+ String "," "+012.34kg") = weight_str "+012.34kg"
  /\ (PyStr.contains "kg" "+012.34kg" = true ->
      decode_line ("ST,GS" +:+ String "," "+012.34kg") = decode_line "+012.34kg").
Proof.
  apply (decoder_reads_last_field "ST,GS" "+012.34kg").
  reflexivity.
Defined.

End Field.
